(** * Xeno AI: a shallow embedding of the chat client's data flow

    The development follows the repository's TypeScript sources:
    - [JS]       the JavaScript primitives the code relies on (truthiness,
                 [||], string methods, [Array.prototype.sort]);
    - [Types]    [types.ts]: messages and sessions;
    - [Gemini]   [services/gemini.ts]: the gateway to the remote model;
    - [Sidebar]  [components/Sidebar.tsx]: the displayed session list;
    - [App]      [App.tsx]: the React state and its event handlers.

    Strings are sequences of UTF-16 code units.  The Unicode case mapping
    of the engine is taken as it comes ([JS.Engine]); everything else on
    strings is computed. *)

From Stdlib Require Import ZArith NArith Ascii String Bool Lia.
From stdpp Require Import base tactics option list strings sorting.

Local Open Scope string_scope.
Local Open Scope Z_scope.
Local Open Scope list_scope.

(** ** JavaScript primitives *)

Module JS.

(** A string is its sequence of UTF-16 code units, as in ECMAScript:
    [length], [substring], [startsWith] and [includes] count and compare
    code units. *)
Abbreviation jstring := (list N).

(** The string of an ASCII literal, one code unit per character. *)
Definition js (s : string) : jstring :=
  (λ c, N_of_ascii c) <$> list_ascii_of_string s.

(** [s] is truthy iff it is not the empty string. *)
Definition truthyS (s : jstring) : bool :=
  match s with
  | [] => false
  | _ :: _ => true
  end.

(** A [string | null | undefined] value: [None] and the empty string are falsy. *)
Definition truthy (o : option jstring) : bool :=
  match o with
  | Some s => truthyS s
  | None => false
  end.

(** An optional boolean ([isPinned?: boolean]): only [true] is truthy. *)
Definition truthyB (o : option bool) : bool :=
  match o with
  | Some b => b
  | None => false
  end.

(** [a || b] on strings. *)
Definition orElse (a b : jstring) : jstring := if truthyS a then a else b.

(** [a || undefined] on a [string | null]. *)
Definition orUndefined (a : option jstring) : option jstring :=
  if truthy a then a else None.

(** [s.substring(start, end)] for [start <= end]. *)
Definition substring (start end_ : nat) (s : jstring) : jstring :=
  take (end_ - start) (drop start s).

(** What the engine brings with it: the Unicode case mapping behind
    [String.prototype.toLowerCase], whose tables are no part of the
    program. *)
Record Engine := {
  toLowerCase : jstring → jstring;
}.

(** On the ASCII range lower-casing maps A-Z to a-z and keeps the rest. *)
Definition isUpper (c : N) : bool := ((65 <=? c) && (c <=? 90))%N.

Definition lowerChar (c : N) : N := if isUpper c then (c + 32)%N else c.

Definition asciiLower (s : jstring) : jstring := lowerChar <$> s.

Definition isAscii (s : jstring) : Prop := Forall (λ c, (c < 128)%N) s.

(** What every engine's [toLowerCase] does on ASCII strings. *)
Definition lowersAscii (E : Engine) : Prop :=
  ∀ s, isAscii s → toLowerCase E s = asciiLower s.

(** [s.startsWith(p)]. *)
Fixpoint startsWith (s p : jstring) {struct p} : bool :=
  match p with
  | [] => true
  | c :: p' =>
      match s with
      | [] => false
      | d :: s' => (d =? c)%N && startsWith s' p'
      end
  end.

(** [s.includes(sub)]: [sub] occurs at some position of [s]. *)
Fixpoint includes (s sub : jstring) : bool :=
  startsWith s sub ||
  match s with
  | [] => false
  | _ :: s' => includes s' sub
  end.

(** The rest of [s] after the prefix [p], when [s] starts with [p]. *)
Fixpoint stripPrefix (p s : jstring) : option jstring :=
  match p with
  | [] => Some s
  | c :: p' =>
      match s with
      | [] => None
      | d :: s' => if (d =? c)%N then stripPrefix p' s' else None
      end
  end.

(** White space and line terminators of ECMAScript: TAB, LF, VT, FF, CR,
    SPACE, NO-BREAK SPACE, the space separators U+1680, U+2000-U+200A,
    U+202F, U+205F and U+3000, LINE and PARAGRAPH SEPARATOR, and U+FEFF. *)
Definition isWhiteSpace (c : N) : bool :=
  ((9 <=? c) && (c <=? 13) || (c =? 32) || (c =? 160) || (c =? 5760) ||
   (8192 <=? c) && (c <=? 8202) || (c =? 8232) || (c =? 8233) ||
   (c =? 8239) || (c =? 8287) || (c =? 12288) || (c =? 65279))%N.

Fixpoint trimStart (s : jstring) : jstring :=
  match s with
  | [] => []
  | c :: s' => if isWhiteSpace c then trimStart s' else s
  end.

Fixpoint trimEnd (s : jstring) : jstring :=
  match s with
  | [] => []
  | c :: s' =>
      let t := trimEnd s' in
      if isWhiteSpace c && negb (truthyS t) then [] else c :: t
  end.

(** [String.prototype.trim]. *)
Definition trim (s : jstring) : jstring := trimEnd (trimStart s).

(** [\w] of a regular expression: [[A-Za-z0-9_]]. *)
Definition isWordChar (c : N) : bool :=
  ((65 <=? c) && (c <=? 90) || (97 <=? c) && (c <=? 122) ||
   (48 <=? c) && (c <=? 57) || (c =? 95))%N.

(** The longest run of word characters at the start of [s], and the rest. *)
Fixpoint spanWord (s : jstring) : jstring * jstring :=
  match s with
  | [] => ([], [])
  | c :: s' =>
      if isWordChar c
      then let '(w, r) := spanWord s' in (c :: w, r)
      else ([], s)
  end.

(** [Array.prototype.sort(cmp)]: a stable sort (ECMAScript 2019); [cmp a b]
    negative puts [a] first, positive puts [b] first.  For a consistent
    comparator the result is determined by stability, and it is the one the
    stable insertion below computes. *)
Section Sort.
Context {A : Type} (cmp : A → A → Z).

Fixpoint insertBy (x : A) (l : list A) : list A :=
  match l with
  | [] => [x]
  | y :: l' => if cmp x y <=? 0 then x :: l else y :: insertBy x l'
  end.

Definition sort (l : list A) : list A := foldr insertBy [] l.
End Sort.

(** What a call that may throw gives back. *)
Inductive Outcome (A : Type) : Type :=
| Returned (a : A)
| Thrown (e : string).
Global Arguments Returned {A} a.
Global Arguments Thrown {A} e.

End JS.

(** ** types.ts *)

Module Types.
Import JS.

Inductive MessageRole := USER | MODEL.
Inductive MessageType := TEXT | IMAGE.

Global Instance MessageRole_eq_dec : EqDecision MessageRole.
Proof. solve_decision. Defined.
Global Instance MessageType_eq_dec : EqDecision MessageType.
Proof. solve_decision. Defined.

Record ChatMessage := {
  msg_id : jstring;
  role : MessageRole;
  text : jstring;
  imageUrl : option jstring;
  type : MessageType;
  timestamp : Z;
  isGenerating : option bool;
  originalPrompt : option jstring;
}.

Record ChatSession := {
  id : jstring;
  title : jstring;
  messages : list ChatMessage;
  createdAt : Z;
  updatedAt : Z;
  isPinned : option bool;
}.

End Types.

(** ** services/gemini.ts *)

Module Gemini.
Import JS Types.

(** The SDK's request and response shapes, as the code uses them. *)
Inductive Part :=
| InlineData (mimeType data : jstring)
| Text (t : jstring).

Record Content := { c_role : jstring; parts : list Part }.

Record GenerateContentParams := {
  gc_model : jstring;
  contents : list Content;
  systemInstruction : jstring;
}.

(** [response.text]. *)
Record GenerateContentResponse := { resp_text : option jstring }.

Record GenerateImagesParams := {
  gi_model : jstring;
  prompt : jstring;
  numberOfImages : Z;
  outputMimeType : jstring;
  aspectRatio : jstring;
}.

(** [response.generatedImages], each entry with its [image.imageBytes]. *)
Record GenerateImagesResponse := { generatedImages : option (list jstring) }.

(** The remote service behind [ai.models]. *)
Record Remote := {
  generateContent : GenerateContentParams → Outcome GenerateContentResponse;
  generateImages : GenerateImagesParams → Outcome GenerateImagesResponse;
}.

(** The three emoji of the persona are U+1F60A, U+1F4AB and U+1F525, each a
    surrogate pair. *)
Definition SYSTEM_INSTRUCTION : jstring :=
  js "
You are Xeno AI, a friendly, bilingual AI companion (Hindi and English). 
You are helpful, warm, and slightly playful. You love using emojis "
  ++ [55357; 56842; 55357; 56491; 55357; 56613]%N ++ js ".
If the user sends an image, analyze it enthusiastically.
If the user asks to generate an image, describe what you would generate in detail, but do not generate it yourself directly in text (the UI handles the actual generation call).
Support Hinglish as well.
Keep responses concise unless asked for detail.
".

Definition base64Headers : list jstring :=
  [ js "data:image/png;base64,"; js "data:image/jpeg;base64,";
    js "data:image/webp;base64,"; js "data:image/heic;base64," ].

(** [dataUri.replace(/^data:image\/(png|jpeg|webp|heic);base64,/, '')]. *)
Definition cleanBase64 (dataUri : jstring) : jstring :=
  default dataUri
    (foldr (λ h acc, match stripPrefix h dataUri with
                     | Some rest => Some rest
                     | None => acc
                     end) None base64Headers).

(** [dataUri.match(/^data:(image\/\w+);base64,/)], first group or the default. *)
Definition getMimeType (dataUri : jstring) : jstring :=
  match stripPrefix (js "data:image/") dataUri with
  | Some rest =>
      let '(w, tl) := spanWord rest in
      if truthyS w && startsWith tl (js ";base64,") then js "image/" ++ w
      else js "image/jpeg"
  | None => js "image/jpeg"
  end.

Definition historyContent (msg : ChatMessage) : Content :=
  {| c_role := if decide (role msg = USER) then js "user" else js "model";
     parts :=
       (if truthy (imageUrl msg)
        then [InlineData (js "image/jpeg") (cleanBase64 (default [] (imageUrl msg)))]
        else []) ++ [Text (text msg)] |}.

(** The text ends with U+1F9E0 and U+274C. *)
Definition chatFailure : jstring :=
  js "Sorry, I encountered an error connecting to my neural link. "
  ++ [55358; 56800; 10060]%N.

(** The [try] body and the [catch] of [sendMessageToGemini]: it always
    returns a string. *)
Definition sendMessageToGemini (ai : Remote) (history : list ChatMessage)
    (currentMessage : jstring) (currentImage : option jstring) : jstring :=
  let contents := historyContent <$> history in
  let newParts :=
    (if truthy currentImage
     then [InlineData (getMimeType (default [] currentImage))
                      (cleanBase64 (default [] currentImage))]
     else []) ++ [Text currentMessage] in
  let finalContents := contents ++ [{| c_role := js "user"; parts := newParts |}] in
  match generateContent ai {| gc_model := js "gemini-2.5-flash";
                              contents := finalContents;
                              systemInstruction := SYSTEM_INSTRUCTION |} with
  | Returned response =>
      orElse (default [] (resp_text response))
             (js "I'm having trouble speaking right now.")
  | Thrown _ => chatFailure
  end.

(** [generateImageWithGemini]: the [catch] logs and throws the error again. *)
Definition generateImageWithGemini (ai : Remote) (prompt : jstring)
    : Outcome (option jstring) :=
  match generateImages ai {| gi_model := js "imagen-4.0-generate-001";
                             prompt := prompt;
                             numberOfImages := 1;
                             outputMimeType := js "image/jpeg";
                             aspectRatio := js "1:1" |} with
  | Returned response =>
      match generatedImages response with
      | Some (base64ImageBytes :: _) =>
          Returned (Some (js "data:image/jpeg;base64," ++ base64ImageBytes))
      | _ => Returned None
      end
  | Thrown error => Thrown error
  end.

(** Heuristic: does the user want an image? *)
Definition isImageGenerationRequest (E : Engine) (text : jstring) : bool :=
  let lower := toLowerCase E text in
  startsWith lower (js "generate image") ||
  startsWith lower (js "create image") ||
  startsWith lower (js "draw") ||
  startsWith lower (js "imagine") ||
  includes lower (js "make an image of").

End Gemini.

(** ** components/Sidebar.tsx *)

Module Sidebar.
Import JS Types.

(** The comparator handed to [sort]: pinned first, then date. *)
Definition compareSessions (a b : ChatSession) : Z :=
  if truthyB (isPinned a) && negb (truthyB (isPinned b)) then -1
  else if negb (truthyB (isPinned a)) && truthyB (isPinned b) then 1
  else updatedAt b - updatedAt a.

Definition matchesSearch (E : Engine) (searchTerm : jstring) (s : ChatSession) : Prop :=
  includes (toLowerCase E (title s)) (toLowerCase E searchTerm) = true.

Global Instance matchesSearch_dec E searchTerm s : Decision (matchesSearch E searchTerm s).
Proof. unfold matchesSearch. apply _. Defined.

Definition filteredSessions (E : Engine) (sessions : list ChatSession)
    (searchTerm : jstring) : list ChatSession :=
  sort compareSessions (filter (matchesSearch E searchTerm) sessions).

End Sidebar.

(** ** App.tsx *)

Module App.
Import JS Types Gemini.

Record PreviewData := {
  url : jstring;
  isGenerated : bool;
  pv_prompt : option jstring;
}.

(** The component's [useState] cells. *)
Record AppState := {
  showStartup : bool;
  isSidebarOpen : bool;
  input : jstring;
  isTyping : bool;
  sessions : list ChatSession;
  currentSessionId : option jstring;
  selectedImage : option jstring;
  previewData : option PreviewData;
  showImageGenGuide : bool;
  isLoggedIn : bool;
  showLoginModal : bool;
}.

(** What the browser and the network supply.  [cryptoRandomUUID] is
    [crypto.randomUUID] where the platform has it; [mathRandomBase36 n] is
    [Math.random().toString(36)] and [dateNow n] is [Date.now()] at the
    [n]-th call. *)
Record Host := {
  ai : Remote;
  engine : Engine;
  cryptoRandomUUID : option (nat → jstring);
  mathRandomBase36 : nat → jstring;
  dateNow : nat → Z;
  innerWidth : Z;
}.

(** The state a handler runs on: the React cells and how often the random
    source and the clock have been read. *)
Record World := {
  ui : AppState;
  randCalls : nat;
  clockCalls : nat;
}.

Definition M (A : Type) : Type := World → A * World.

Global Instance M_ret : MRet M := λ A a w, (a, w).
Global Instance M_bind : MBind M := λ A B f m w, let '(a, w') := m w in f a w'.

Definition modify (f : AppState → AppState) : M unit :=
  λ w, ((), {| ui := f (ui w); randCalls := randCalls w; clockCalls := clockCalls w |}).

Definition setIsSidebarOpen (v : bool) : M unit :=
  modify (λ st, {| showStartup := showStartup st; isSidebarOpen := v;
    input := input st; isTyping := isTyping st; sessions := sessions st;
    currentSessionId := currentSessionId st; selectedImage := selectedImage st;
    previewData := previewData st; showImageGenGuide := showImageGenGuide st;
    isLoggedIn := isLoggedIn st; showLoginModal := showLoginModal st |}).

Definition setInput (v : jstring) : M unit :=
  modify (λ st, {| showStartup := showStartup st; isSidebarOpen := isSidebarOpen st;
    input := v; isTyping := isTyping st; sessions := sessions st;
    currentSessionId := currentSessionId st; selectedImage := selectedImage st;
    previewData := previewData st; showImageGenGuide := showImageGenGuide st;
    isLoggedIn := isLoggedIn st; showLoginModal := showLoginModal st |}).

Definition setIsTyping (v : bool) : M unit :=
  modify (λ st, {| showStartup := showStartup st; isSidebarOpen := isSidebarOpen st;
    input := input st; isTyping := v; sessions := sessions st;
    currentSessionId := currentSessionId st; selectedImage := selectedImage st;
    previewData := previewData st; showImageGenGuide := showImageGenGuide st;
    isLoggedIn := isLoggedIn st; showLoginModal := showLoginModal st |}).

Definition withSessions (v : list ChatSession) (st : AppState) : AppState :=
  {| showStartup := showStartup st; isSidebarOpen := isSidebarOpen st;
     input := input st; isTyping := isTyping st; sessions := v;
     currentSessionId := currentSessionId st; selectedImage := selectedImage st;
     previewData := previewData st; showImageGenGuide := showImageGenGuide st;
     isLoggedIn := isLoggedIn st; showLoginModal := showLoginModal st |}.

(** [setSessions(value)]. *)
Definition setSessionsTo (v : list ChatSession) : M unit := modify (withSessions v).

(** [setSessions(prev => ...)]: the updater is applied to the latest value;
    it may read the clock. *)
Definition setSessions (f : list ChatSession → M (list ChatSession)) : M unit :=
  λ w, let '(v, w') := f (sessions (ui w)) w in modify (withSessions v) w'.

Definition setCurrentSessionId (v : option jstring) : M unit :=
  modify (λ st, {| showStartup := showStartup st; isSidebarOpen := isSidebarOpen st;
    input := input st; isTyping := isTyping st; sessions := sessions st;
    currentSessionId := v; selectedImage := selectedImage st;
    previewData := previewData st; showImageGenGuide := showImageGenGuide st;
    isLoggedIn := isLoggedIn st; showLoginModal := showLoginModal st |}).

Definition setSelectedImage (v : option jstring) : M unit :=
  modify (λ st, {| showStartup := showStartup st; isSidebarOpen := isSidebarOpen st;
    input := input st; isTyping := isTyping st; sessions := sessions st;
    currentSessionId := currentSessionId st; selectedImage := v;
    previewData := previewData st; showImageGenGuide := showImageGenGuide st;
    isLoggedIn := isLoggedIn st; showLoginModal := showLoginModal st |}).

Definition setPreviewData (v : option PreviewData) : M unit :=
  modify (λ st, {| showStartup := showStartup st; isSidebarOpen := isSidebarOpen st;
    input := input st; isTyping := isTyping st; sessions := sessions st;
    currentSessionId := currentSessionId st; selectedImage := selectedImage st;
    previewData := v; showImageGenGuide := showImageGenGuide st;
    isLoggedIn := isLoggedIn st; showLoginModal := showLoginModal st |}).

Definition setShowImageGenGuide (v : bool) : M unit :=
  modify (λ st, {| showStartup := showStartup st; isSidebarOpen := isSidebarOpen st;
    input := input st; isTyping := isTyping st; sessions := sessions st;
    currentSessionId := currentSessionId st; selectedImage := selectedImage st;
    previewData := previewData st; showImageGenGuide := v;
    isLoggedIn := isLoggedIn st; showLoginModal := showLoginModal st |}).

Definition setShowLoginModal (v : bool) : M unit :=
  modify (λ st, {| showStartup := showStartup st; isSidebarOpen := isSidebarOpen st;
    input := input st; isTyping := isTyping st; sessions := sessions st;
    currentSessionId := currentSessionId st; selectedImage := selectedImage st;
    previewData := previewData st; showImageGenGuide := showImageGenGuide st;
    isLoggedIn := isLoggedIn st; showLoginModal := v |}).

(** [Date.now()]. *)
Definition Date_now (h : Host) : M Z :=
  λ w, (dateNow h (clockCalls w),
        {| ui := ui w; randCalls := randCalls w; clockCalls := S (clockCalls w) |}).

(** [generateId]: a random UUID, or thirteen base-36 digits of [Math.random()]. *)
Definition generateId (h : Host) : M jstring :=
  λ w, (match cryptoRandomUUID h with
        | Some randomUUID => randomUUID (randCalls w)
        | None => substring 2 15 (mathRandomBase36 h (randCalls w))
        end,
        {| ui := ui w; randCalls := S (randCalls w); clockCalls := clockCalls w |}).

(** [prev.map(f)] for an [f] that reads the clock. *)
Fixpoint mapM {A B : Type} (f : A → M B) (l : list A) : M (list B) :=
  match l with
  | [] => mret []
  | x :: l' => y ← f x; ys ← mapM f l'; mret (y :: ys)
  end.

Definition requireAuth (r : AppState) (callback : M unit) : M unit :=
  if isLoggedIn r then callback else setShowLoginModal true.

(** *** Chat handlers

    A handler is a closure over the cells of the render it was created in
    ([r]); its [set...] calls act on the live state.  A handler runs to its
    end before the next event: the suspension at [await] is not interleaved
    with other handlers here. *)

Definition handleNewChat (h : Host) : M unit :=
  newId ← generateId h;
  created ← Date_now h;
  updated ← Date_now h;
  let newSession :=
    {| id := newId; title := (js "New Conversation"); messages := [];
       createdAt := created; updatedAt := updated; isPinned := None |} in
  setSessions (λ prev, mret (newSession :: prev));;
  setCurrentSessionId (Some (id newSession));;
  setShowImageGenGuide false;;
  if innerWidth h <? 768 then setIsSidebarOpen false else mret ().

Definition handleDeleteSession (r : AppState) (id0 : jstring) : M unit :=
  setSessions (λ prev, mret (filter (λ s, id s ≠ id0) prev));;
  if decide (currentSessionId r = Some id0) then setCurrentSessionId None else mret ().

Definition togglePin (s : ChatSession) : ChatSession :=
  {| id := id s; title := title s; messages := messages s;
     createdAt := createdAt s; updatedAt := updatedAt s;
     isPinned := Some (negb (truthyB (isPinned s))) |}.

Definition handlePinSession (id0 : jstring) : M unit :=
  setSessions (λ prev, mret ((λ s, if decide (id s = id0) then togglePin s else s) <$> prev)).

Definition handleSessionSelect (r : AppState) (id0 : jstring) : M unit :=
  requireAuth r (
    setCurrentSessionId (Some id0);;
    setShowImageGenGuide false;;
    setIsSidebarOpen false).

(** [onClearAll]. *)
Definition handleClearAll : M unit :=
  setSessionsTo [];;
  setCurrentSessionId None.

(** The text has U+1F3A8 (a surrogate pair) after the first sentence, two
    line feeds, and the prompt between double quotes. *)
Definition imageReply (textToSend : jstring) : jstring :=
  js "Here is the image you asked for! " ++ [55356; 57256; 32; 10; 10]%N
    ++ js "Prompt: " ++ [34%N] ++ textToSend ++ [34%N].

Definition blurryReply : jstring :=
  (js "I tried to generate that image, but my neural canvas is blurry right now. Please try again.").

(** The text ends with U+26A0 U+FE0F. *)
Definition disruptedReply : jstring :=
  js "My neural link was disrupted. Please try again. " ++ [9888; 65039]%N.

(** The user's turn is appended to the target session; a first message
    also gives the session its title. *)
Definition appendUserMsg (h : Host) (targetSessionId : option jstring)
    (textToSend : jstring) (userMsg : ChatMessage) (s : ChatSession) : M ChatSession :=
  if decide (Some (id s) = targetSessionId) then
    let title :=
      if decide (length (messages s) = 0%nat)
      then orElse (substring 0 30 textToSend) (js "Image Analysis")
      else title s in
    updated ← Date_now h;
    mret {| id := id s; title := title; messages := messages s ++ [userMsg];
            createdAt := createdAt s; updatedAt := updated; isPinned := isPinned s |}
  else mret s.

Definition appendBotMsg (h : Host) (targetSessionId : option jstring)
    (botMsg : ChatMessage) (s : ChatSession) : M ChatSession :=
  if decide (Some (id s) = targetSessionId) then
    updated ← Date_now h;
    mret {| id := id s; title := title s; messages := messages s ++ [botMsg];
            createdAt := createdAt s; updatedAt := updated; isPinned := isPinned s |}
  else mret s.

Definition appendErrorMsg (targetSessionId : option jstring)
    (errorMsg : ChatMessage) (s : ChatSession) : ChatSession :=
  if decide (Some (id s) = targetSessionId) then
    {| id := id s; title := title s; messages := messages s ++ [errorMsg];
       createdAt := createdAt s; updatedAt := updatedAt s; isPinned := isPinned s |}
  else s.

(** The [try] block up to [botMsg]'s fields: [Thrown] when the gateway throws. *)
Definition gatewayReply (h : Host) (r : AppState) (targetSessionId : option jstring)
    (textToSend : jstring) (userMsg : ChatMessage) (isImageGenMode : bool)
    : Outcome (jstring * option jstring * MessageType * option jstring) :=
  if isImageGenMode || isImageGenerationRequest (engine h) textToSend then
    match generateImageWithGemini (ai h) textToSend with
    | Returned generatedImageBase64 =>
        if truthy generatedImageBase64
        then Returned (imageReply textToSend, generatedImageBase64, IMAGE, Some textToSend)
        else Returned (blurryReply, None, TEXT, None)
    | Thrown e => Thrown e
    end
  else
    let currentSessionData :=
      list_find (λ s, Some (id s) = targetSessionId) (sessions r) in
    let history :=
      match currentSessionData with
      | Some (_, s) => messages s
      | None => []
      end in
    Returned (sendMessageToGemini (ai h) history textToSend (imageUrl userMsg),
              None, TEXT, None).

Definition handleSend (h : Host) (r : AppState)
    (overrideText : option jstring) (isImageGenMode : bool) : M unit :=
  let textToSend := if truthy overrideText then default [] overrideText else input r in
  if negb (truthyS (trim textToSend)) && negb (truthy (selectedImage r))
     || negb (truthy (currentSessionId r)) then
    if negb (truthy (currentSessionId r)) then
      newId ← generateId h;
      created ← Date_now h;
      updated ← Date_now h;
      let newSession :=
        {| id := newId; title := orElse (substring 0 30 textToSend) (js "New Chat");
           messages := []; createdAt := created; updatedAt := updated;
           isPinned := None |} in
      setSessions (λ prev, mret (newSession :: prev));;
      setCurrentSessionId (Some (id newSession))
    else mret ()
  else
    targetSessionId ←
      (if negb (truthy (currentSessionId r)) then
         newId ← generateId h;
         created ← Date_now h;
         updated ← Date_now h;
         let newSession :=
           {| id := newId; title := substring 0 20 textToSend ++ (js "...");
              messages := []; createdAt := created; updatedAt := updated;
              isPinned := None |} in
         setSessionsTo (newSession :: sessions r);;
         setCurrentSessionId (Some (id newSession));;
         mret (Some (id newSession))
       else mret (currentSessionId r));
    userId ← generateId h;
    userTime ← Date_now h;
    let userMsg :=
      {| msg_id := userId; role := USER; text := textToSend;
         imageUrl := orUndefined (selectedImage r); type := TEXT;
         timestamp := userTime; isGenerating := None; originalPrompt := None |} in
    setSessions (mapM (appendUserMsg h targetSessionId textToSend userMsg));;
    setInput [];;
    setSelectedImage None;;
    setIsTyping true;;
    setShowImageGenGuide false;;
    match gatewayReply h r targetSessionId textToSend userMsg isImageGenMode with
    | Returned (responseText, responseImage, msgType, originalPrompt) =>
        botId ← generateId h;
        botTime ← Date_now h;
        let botMsg :=
          {| msg_id := botId; role := MODEL; text := responseText;
             imageUrl := responseImage; type := msgType; timestamp := botTime;
             isGenerating := None; originalPrompt := originalPrompt |} in
        setSessions (mapM (appendBotMsg h targetSessionId botMsg))
    | Thrown e =>
        errorId ← generateId h;
        errorTime ← Date_now h;
        let errorMsg :=
          {| msg_id := errorId; role := MODEL; text := disruptedReply;
             imageUrl := None; type := TEXT; timestamp := errorTime;
             isGenerating := None; originalPrompt := None |} in
        setSessions (λ prev, mret (appendErrorMsg targetSessionId errorMsg <$> prev))
    end;;
    setIsTyping false.

Definition handleRegenerateImage (h : Host) (r : AppState) : M unit :=
  match previewData r with
  | Some pd =>
      if truthy (pv_prompt pd) then
        setPreviewData None;;
        handleSend h r (pv_prompt pd) true
      else mret ()
  | None => mret ()
  end.

(** The session-store operations and the send flow, as events. *)
Inductive Event :=
| NewChat
| DeleteSession (id0 : jstring)
| PinSession (id0 : jstring)
| SessionSelect (id0 : jstring)
| ClearAll
| Send (overrideText : option jstring) (isImageGenMode : bool)
| RegenerateImage.

(** The handler of an event, closed over the current render. *)
Definition dispatch (h : Host) (ev : Event) : M unit :=
  λ w,
    let r := ui w in
    match ev with
    | NewChat => handleNewChat h w
    | DeleteSession id0 => handleDeleteSession r id0 w
    | PinSession id0 => handlePinSession id0 w
    | SessionSelect id0 => handleSessionSelect r id0 w
    | ClearAll => handleClearAll w
    | Send overrideText isImageGenMode => handleSend h r overrideText isImageGenMode w
    | RegenerateImage => handleRegenerateImage h r w
    end.

(** The sessions an event leaves behind. *)
Definition sessionsAfter (h : Host) (ev : Event) (w : World) : list ChatSession :=
  sessions (ui (dispatch h ev w).2).

End App.

(** ** Concrete remotes, hosts and states used in examples *)

Module Fixtures.
Import JS Types Gemini App.

(** An engine whose case mapping is the ASCII one everywhere. *)
Definition asciiEngine : Engine := {| toLowerCase := asciiLower |}.

(** A remote whose image endpoint fails and whose chat endpoint answers. *)
Definition failingRemote : Remote :=
  {| generateContent := λ _, Returned {| resp_text := Some (js "Namaste!") |};
     generateImages := λ _, Thrown "quota exceeded" |}.

(** A remote that returns one image, and one that returns none. *)
Definition paintingRemote : Remote :=
  {| generateContent := λ _, Returned {| resp_text := Some (js "Namaste!") |};
     generateImages := λ _, Returned {| generatedImages := Some [(js "QUJD")] |} |}.

Definition emptyRemote : Remote :=
  {| generateContent := λ _, Returned {| resp_text := None |};
     generateImages := λ _, Returned {| generatedImages := Some [] |} |}.

(** A browser without [crypto.randomUUID] whose [Math.random()] returns
    [0.5] at every call ([0.5.toString(36)] is ["0.i"]). *)
Definition stuckHost : Host :=
  {| ai := failingRemote; engine := asciiEngine; cryptoRandomUUID := None;
     mathRandomBase36 := λ _, (js "0.i");
     dateNow := λ n, 1700000000000 + Z.of_nat n; innerWidth := 1280 |}.

(** A browser whose UUIDs are all different. *)
Definition freshHost : Host :=
  {| ai := failingRemote; engine := asciiEngine;
     cryptoRandomUUID := Some (λ n, N.of_nat (97 + n) :: js "-uuid");
     mathRandomBase36 := λ _, (js "0.i");
     dateNow := λ n, 1700000000000 + Z.of_nat n; innerWidth := 1280 |}.

(** A browser whose remote paints. *)
Definition paintingHost : Host :=
  {| ai := paintingRemote; engine := asciiEngine;
     cryptoRandomUUID := Some (λ n, N.of_nat (97 + n) :: js "-uuid");
     mathRandomBase36 := λ _, (js "0.i");
     dateNow := λ n, 1700000000000 + Z.of_nat n; innerWidth := 600 |}.

Definition blank : AppState :=
  {| showStartup := false; isSidebarOpen := false; input := (js "hello");
     isTyping := false; sessions := []; currentSessionId := None;
     selectedImage := None; previewData := None; showImageGenGuide := false;
     isLoggedIn := true; showLoginModal := false |}.

Definition boot : World := {| ui := blank; randCalls := 0; clockCalls := 0 |}.

Definition trip : ChatSession :=
  {| id := (js "s1"); title := (js "Trip to Goa"); messages := [];
     createdAt := 10; updatedAt := 50; isPinned := None |}.

Definition taxes : ChatSession :=
  {| id := (js "s2"); title := (js "TRIPLE check taxes"); messages := [];
     createdAt := 20; updatedAt := 70; isPinned := Some true |}.

Definition recipe : ChatSession :=
  {| id := (js "s3"); title := (js "Dal recipe"); messages := [];
     createdAt := 30; updatedAt := 90; isPinned := Some false |}.

(** Two sessions, the first one current, and a drawing request typed in. *)
Definition chatting : World :=
  {| ui := {| showStartup := false; isSidebarOpen := false; input := (js "draw a cat");
              isTyping := false; sessions := [trip; taxes];
              currentSessionId := Some (js "s1"); selectedImage := None;
              previewData := None; showImageGenGuide := false;
              isLoggedIn := true; showLoginModal := false |};
     randCalls := 0; clockCalls := 0 |}.

End Fixtures.

(** ** The properties the theorems are stated with *)

Module Spec.
Import JS Types Gemini Sidebar App.

(** [s'] is [s] with messages added at the end, if any. *)
Definition extends (s s' : ChatSession) : Prop :=
  id s' = id s ∧ messages s `prefix_of` messages s'.

(** The sessions of [old] an event keeps. *)
Definition survivors (ev : Event) (old : list ChatSession) : list ChatSession :=
  match ev with
  | DeleteSession id0 => filter (λ s, id s ≠ id0) old
  | ClearAll => []
  | _ => old
  end.

(** [s'] agrees with [s] on everything but the pinned flag. *)
Definition samePinless (s s' : ChatSession) : Prop :=
  id s' = id s ∧ title s' = title s ∧ messages s' = messages s ∧
  createdAt s' = createdAt s ∧ updatedAt s' = updatedAt s.

(** [a] may stand before [b] in the sidebar. *)
Definition before (a b : ChatSession) : Prop := compareSessions a b ≤ 0.

(** What an updater of the send flow does to one session: [msg] is put
    at the end of a session with the target identifier, any other session
    is left as it is. *)
Definition appended (target : option jstring) (msg : ChatMessage)
    (s s' : ChatSession) : Prop :=
  id s' = id s ∧ createdAt s' = createdAt s ∧ isPinned s' = isPinned s ∧
  if decide (Some (id s) = target)
  then messages s' = messages s ++ [msg]
  else s' = s.

(** The state after a sequence of events. *)
Fixpoint run (h : Host) (evs : list Event) (w : World) : World :=
  match evs with
  | [] => w
  | ev :: evs' => run h evs' (dispatch h ev w).2
  end.


(** The string [generateId] returns at its [k]-th call. *)
Definition idSource (h : Host) (k : nat) : jstring :=
  match cryptoRandomUUID h with
  | Some randomUUID => randomUUID k
  | None => substring 2 15 (mathRandomBase36 h k)
  end.

(** The text a send works with: [overrideText || input]. *)
Definition textOf (r : AppState) (overrideText : option jstring) : jstring :=
  if truthy overrideText then default [] overrideText else input r.

End Spec.

(** ** services/gemini.ts: the chat request *)

Module Request.
Import JS Types Gemini.

(** The argument [sendMessageToGemini] hands to [ai.models.generateContent]. *)
Definition chatRequest (history : list ChatMessage) (currentMessage : jstring)
    (currentImage : option jstring) : GenerateContentParams :=
  let contents := historyContent <$> history in
  let newParts :=
    (if truthy currentImage
     then [InlineData (getMimeType (default [] currentImage))
                      (cleanBase64 (default [] currentImage))]
     else []) ++ [Text currentMessage] in
  {| gc_model := (js "gemini-2.5-flash");
     contents := contents ++ [{| c_role := (js "user"); parts := newParts |}];
     systemInstruction := SYSTEM_INSTRUCTION |}.

(** The role string of a history turn. *)
Definition roleName (msg : ChatMessage) : jstring :=
  if decide (role msg = USER) then (js "user") else (js "model").

End Request.

(** ** components/MessageBubble.tsx *)

Module MessageBubble.
Import JS Types App.

Definition isUser (message : ChatMessage) : bool :=
  bool_decide (role message = USER).

Definition isGenerated (message : ChatMessage) : bool :=
  negb (isUser message) && bool_decide (type message = IMAGE).

(** The image of a bubble is rendered when [message.imageUrl] is truthy;
    clicking it calls [onImageClick] with this value. *)
Definition imageClick (message : ChatMessage) : option PreviewData :=
  if truthy (imageUrl message)
  then Some {| url := default [] (imageUrl message);
               App.isGenerated := isGenerated message;
               pv_prompt := originalPrompt message |}
  else None.

End MessageBubble.

(** ** App.tsx: the composer and the preview *)

Module Composer.
Import JS Types Gemini App.

(** [sessions.find(s => s.id === currentSessionId)]. *)
Definition currentSession (st : AppState) : option ChatSession :=
  snd <$> list_find (λ s, Some (id s) = currentSessionId st) (sessions st).

(** [onKeyDown] of the text area. *)
Definition handleKeyPress (h : Host) (r : AppState) (key : jstring) (shiftKey : bool)
    : M unit :=
  if bool_decide (key = js "Enter") && negb shiftKey
  then handleSend h r None (showImageGenGuide r)
  else mret ().

(** [disabled] of the send button. *)
Definition sendDisabled (st : AppState) : bool :=
  negb (truthyS (trim (input st))) && negb (truthy (selectedImage st)).

(** [onImageClick={setPreviewData}]. *)
Definition openPreview (pd : PreviewData) : M unit := setPreviewData (Some pd).

(** The regenerate button is rendered when
    [previewData.isGenerated && previewData.prompt]. *)
Definition regenerateVisible (pd : PreviewData) : bool :=
  isGenerated pd && truthy (pv_prompt pd).

End Composer.

(** ** Further properties the theorems are stated with *)

Module Props.
Import JS Types Gemini Sidebar App Spec.

(** Every character of [w] is a word character. *)
Fixpoint allWord (w : jstring) : bool :=
  match w with
  | [] => true
  | c :: w' => isWordChar c && allWord w'
  end.

(** The pointer to the current session is null or names a session. *)
Definition pointerValid (st : AppState) : Prop :=
  match currentSessionId st with
  | Some i => i ∈ id <$> sessions st
  | None => True
  end.

(** Does the event, in this state, create a session? *)
Definition createsSession (ev : Event) (st : AppState) : bool :=
  match ev with
  | NewChat => true
  | Send _ _ => negb (truthy (currentSessionId st))
  | RegenerateImage =>
      match previewData st with
      | Some pd => truthy (pv_prompt pd) && negb (truthy (currentSessionId st))
      | None => false
      end
  | _ => false
  end.

(** Two sessions the sidebar's comparator cannot tell apart. *)
Definition sameRank (a b : ChatSession) : Prop :=
  truthyB (isPinned a) = truthyB (isPinned b) ∧ updatedAt a = updatedAt b.

Global Instance sameRank_dec a b : Decision (sameRank a b).
Proof. unfold sameRank. apply _. Defined.

(** The title a send gives a session: a first message names it. *)
Definition titleAfterSend (textToSend : jstring) (s : ChatSession) : jstring :=
  if decide (length (messages s) = 0%nat)
  then orElse (substring 0 30 textToSend) (js "Image Analysis")
  else title s.

(** What a send that reaches the gateway does to one session: a session
    with the target identifier gains the two messages and, if it had none,
    its title; any other session is left as it is.  ([updatedAt] of a
    target is a reading of the clock.) *)
Definition sentInto (target : option jstring) (textToSend : jstring)
    (userMsg replyMsg : ChatMessage) (s s' : ChatSession) : Prop :=
  if decide (Some (id s) = target)
  then id s' = id s ∧ title s' = titleAfterSend textToSend s ∧
       messages s' = messages s ++ [userMsg; replyMsg] ∧
       createdAt s' = createdAt s ∧ isPinned s' = isPinned s
  else s' = s.

(** One message put at the end of a target session by an updater. *)
Definition gained (target : option jstring) (newTitle : ChatSession → jstring)
    (msg : ChatMessage) (s s' : ChatSession) : Prop :=
  if decide (Some (id s) = target)
  then id s' = id s ∧ title s' = newTitle s ∧ messages s' = messages s ++ [msg] ∧
       createdAt s' = createdAt s ∧ isPinned s' = isPinned s
  else s' = s.

(** The user's message a send builds: [userMsg]. *)
Definition userMessage (h : Host) (r : AppState) (w : World)
    (overrideText : option jstring) : ChatMessage :=
  {| msg_id := (generateId h w).1; role := USER; text := textOf r overrideText;
     imageUrl := orUndefined (selectedImage r); type := TEXT;
     timestamp := dateNow h (clockCalls w); isGenerating := None;
     originalPrompt := None |}.

(** The host with another chat endpoint, and with another image endpoint. *)
Definition withChat (h : Host)
    (f : GenerateContentParams → Outcome GenerateContentResponse) : Host :=
  {| ai := {| generateContent := f; generateImages := generateImages (ai h) |};
     engine := engine h; cryptoRandomUUID := cryptoRandomUUID h; mathRandomBase36 := mathRandomBase36 h;
     dateNow := dateNow h; innerWidth := innerWidth h |}.

Definition withImages (h : Host)
    (f : GenerateImagesParams → Outcome GenerateImagesResponse) : Host :=
  {| ai := {| generateContent := generateContent (ai h); generateImages := f |};
     engine := engine h; cryptoRandomUUID := cryptoRandomUUID h; mathRandomBase36 := mathRandomBase36 h;
     dateNow := dateNow h; innerWidth := innerWidth h |}.

End Props.

(** ** More states used in examples *)

Module Scenes.
Import JS Types Gemini App Fixtures.

(** The preview of a generated image is open over the chat. *)
Definition previewing : World :=
  {| ui := {| showStartup := false; isSidebarOpen := false; input := [];
              isTyping := false; sessions := [trip; taxes];
              currentSessionId := Some (js "s1"); selectedImage := None;
              previewData :=
                Some {| url := (js "data:image/jpeg;base64,QUJD"); isGenerated := true;
                        pv_prompt := Some (js "a red fort at dawn") |};
              showImageGenGuide := false; isLoggedIn := true;
              showLoginModal := false |};
     randCalls := 4; clockCalls := 9 |}.

(** Nothing typed, nothing selected, no current session. *)
Definition idle : World :=
  {| ui := {| showStartup := false; isSidebarOpen := false; input := [];
              isTyping := false; sessions := [trip; taxes];
              currentSessionId := None; selectedImage := None;
              previewData := None; showImageGenGuide := false;
              isLoggedIn := false; showLoginModal := false |};
     randCalls := 0; clockCalls := 0 |}.

End Scenes.

(** * Theorems *)

(** ** String primitives *)

Section StringFacts.
Import JS.

Lemma startsWith_app (p rest : jstring) : startsWith (p ++ rest) p = true.
Proof.
  induction p as [|c p IH]; [reflexivity|].
  simpl. rewrite N.eqb_refl. exact IH.
Qed.

Lemma startsWith_inv (s p : jstring) :
  startsWith s p = true → ∃ rest, s = p ++ rest.
Proof.
  revert s. induction p as [|c p IH]; intros s H.
  - exists s. reflexivity.
  - destruct s as [|d s]; [discriminate|].
    simpl in H. apply andb_true_iff in H as [Hc Hs].
    apply N.eqb_eq in Hc. subst d.
    destruct (IH _ Hs) as [rest ->]. exists rest. reflexivity.
Qed.

Lemma startsWith_iff (s p : jstring) :
  startsWith s p = true ↔ ∃ rest, s = p ++ rest.
Proof.
  split; [apply startsWith_inv|].
  intros [rest ->]. apply startsWith_app.
Qed.

Lemma includes_here (s sub : jstring) : startsWith s sub = true → includes s sub = true.
Proof. intros H. destruct s; simpl in *; rewrite H; reflexivity. Qed.

Lemma includes_later (c : N) (s sub : jstring) :
  includes s sub = true → includes (c :: s) sub = true.
Proof. intros H. simpl. rewrite H. apply orb_true_r. Qed.

Lemma includes_iff (s sub : jstring) :
  includes s sub = true ↔ ∃ front back, s = front ++ sub ++ back.
Proof.
  split.
  - induction s as [|c s IH]; simpl; intros H.
    + rewrite orb_false_r in H. apply startsWith_inv in H as [back E].
      exists [], back. exact E.
    + apply orb_true_iff in H as [H|H].
      * apply startsWith_inv in H as [back E]. exists [], back. exact E.
      * destruct (IH H) as (front & back & ->).
        exists (c :: front), back. reflexivity.
  - intros (front & back & ->).
    induction front as [|c front IH].
    + apply includes_here, (startsWith_app sub back).
    + apply includes_later, IH.
Qed.

End StringFacts.

(** ** services/gemini.ts *)

Section GeminiFacts.
Import JS Types Gemini Fixtures.

(** A literal is an ASCII string. *)
Ltac ascii_literal := unfold JS.isAscii; simpl; repeat constructor.

(** C5.  On every engine (whose lower-casing is the usual one on ASCII
    text) the heuristic answers true for "draw a cat" and for "generate
    image of a sunset", false for "hello there", and is blind to the case
    of the letters; for every text it answers true exactly when the
    lower-cased text starts with "generate image", "create image", "draw"
    or "imagine", or contains "make an image of". *)
Theorem isImageGenerationRequest_spec (E : Engine) :
  lowersAscii E →
  isImageGenerationRequest E (js "draw a cat") = true ∧
  isImageGenerationRequest E (js "generate image of a sunset") = true ∧
  isImageGenerationRequest E (js "hello there") = false ∧
  isImageGenerationRequest E (js "Draw A Cat") = true ∧
  isImageGenerationRequest E (js "Please MAKE an Image OF a dog") = true ∧
  ∀ text : jstring,
    isImageGenerationRequest E text = true ↔
      (∃ rest, toLowerCase E text = js "generate image" ++ rest) ∨
      (∃ rest, toLowerCase E text = js "create image" ++ rest) ∨
      (∃ rest, toLowerCase E text = js "draw" ++ rest) ∨
      (∃ rest, toLowerCase E text = js "imagine" ++ rest) ∨
      (∃ front back, toLowerCase E text = front ++ js "make an image of" ++ back).
Proof.
  intros HE.
  assert (Hex : ∀ s, isAscii (js s) →
            isImageGenerationRequest E (js s) =
            isImageGenerationRequest {| toLowerCase := asciiLower |} (js s)).
  { intros s Hs. unfold isImageGenerationRequest. simpl. by rewrite (HE _ Hs). }
  repeat (split; [rewrite Hex by ascii_literal; vm_compute; reflexivity|]).
  intros text. unfold isImageGenerationRequest.
  rewrite !orb_true_iff, !startsWith_iff, includes_iff. tauto.
Qed.

Lemma isImageGenerationRequest_spec_witness :
  isImageGenerationRequest asciiEngine (js "draw a cat") = true ∧
  isImageGenerationRequest asciiEngine (js "generate image of a sunset") = true ∧
  isImageGenerationRequest asciiEngine (js "hello there") = false ∧
  isImageGenerationRequest asciiEngine (js "Draw A Cat") = true ∧
  isImageGenerationRequest asciiEngine (js "Please MAKE an Image OF a dog") = true ∧
  ∀ text : jstring,
    isImageGenerationRequest asciiEngine text = true ↔
      (∃ rest, asciiLower text = js "generate image" ++ rest) ∨
      (∃ rest, asciiLower text = js "create image" ++ rest) ∨
      (∃ rest, asciiLower text = js "draw" ++ rest) ∨
      (∃ rest, asciiLower text = js "imagine" ++ rest) ∨
      (∃ front back, asciiLower text = front ++ js "make an image of" ++ back).
Proof. exact (isImageGenerationRequest_spec asciiEngine (λ s _, eq_refl)). Defined.

(** Where the engine folds a letter outside ASCII, so does the heuristic:
    with an engine that lower-cases U+212A (KELVIN SIGN) to k, the text
    "ma" U+212A "e an image of a dog" is an image request. *)
Example heuristic_follows_engine :
  let kelvin := {| toLowerCase := fmap (λ c, if (c =? 8490)%N then 107%N else lowerChar c) |} in
  isImageGenerationRequest kelvin (js "ma" ++ [8490%N] ++ js "e an image of a dog") = true.
Proof. vm_compute. reflexivity. Qed.

(** C6, as the code has it.  The image operation returns the data URI of
    the first image when the remote call yields at least one, null when it
    yields none, and when the remote call throws it throws the same error
    to its caller. *)
Theorem generateImageWithGemini_outcome (ai : Remote) (text : jstring) :
  let request :=
    {| gi_model := (js "imagen-4.0-generate-001"); prompt := text; numberOfImages := 1;
       outputMimeType := (js "image/jpeg"); aspectRatio := (js "1:1") |} in
  (∀ response first others,
      generateImages ai request = Returned response →
      generatedImages response = Some (first :: others) →
      generateImageWithGemini ai text
        = Returned (Some ((js "data:image/jpeg;base64,") ++ first))) ∧
  (∀ response,
      generateImages ai request = Returned response →
      generatedImages response = None ∨ generatedImages response = Some [] →
      generateImageWithGemini ai text = Returned None) ∧
  (∀ error,
      generateImages ai request = Thrown error →
      generateImageWithGemini ai text = Thrown error).
Proof.
  intros request. unfold generateImageWithGemini. fold request.
  repeat split.
  - intros response first others -> ->. reflexivity.
  - intros response -> [-> | ->]; reflexivity.
  - intros error ->. reflexivity.
Qed.

Example image_operation_examples :
  generateImageWithGemini paintingRemote (js "a cat")
    = Returned (Some (js "data:image/jpeg;base64,QUJD")) ∧
  generateImageWithGemini emptyRemote (js "a cat") = Returned None.
Proof. split; reflexivity. Qed.

(** C6 as stated fails: with a remote whose image endpoint throws, the
    operation returns nothing and the error reaches the caller. *)
Lemma generateImageWithGemini_throws :
  generateImageWithGemini failingRemote (js "a cat") = Thrown "quota exceeded" ∧
  ¬ ∃ result : option jstring,
      generateImageWithGemini failingRemote (js "a cat") = Returned result.
Proof.
  split; [reflexivity|]. intros [result H]. discriminate H.
Qed.

(** The chat operation never throws: a failing remote gives the fixed text. *)
Lemma sendMessageToGemini_failure (ai : Remote) history currentMessage currentImage :
  (∀ request, generateContent ai request = Thrown "offline") →
  sendMessageToGemini ai history currentMessage currentImage = chatFailure.
Proof. intros H. unfold sendMessageToGemini. rewrite H. reflexivity. Qed.

End GeminiFacts.

(** ** Array.prototype.sort *)

Section SortFacts.
Import JS.
Context {A : Type} (cmp : A → A → Z).

(** The order a comparator induces. *)
Let le : relation A := λ a b, cmp a b ≤ 0.

Lemma insertBy_Permutation (x : A) (l : list A) : insertBy cmp x l ≡ₚ x :: l.
Proof.
  induction l as [|y l IH]; simpl; [done|].
  destruct (cmp x y <=? 0); [done|].
  rewrite IH. apply Permutation_swap.
Qed.

Lemma sort_Permutation (l : list A) : sort cmp l ≡ₚ l.
Proof.
  induction l as [|x l IH]; simpl; [done|].
  rewrite insertBy_Permutation. by f_equiv.
Qed.

Lemma insertBy_HdRel (a x : A) (l : list A) :
  le a x → HdRel le a l → HdRel le a (insertBy cmp x l).
Proof.
  intros Hax Hal. destruct l as [|y l]; simpl; [by constructor|].
  destruct (cmp x y <=? 0); constructor; [done|].
  by inversion Hal.
Qed.

Lemma insertBy_Sorted `{!Total le} (x : A) (l : list A) :
  Sorted le l → Sorted le (insertBy cmp x l).
Proof.
  induction 1 as [|y l Hl IH Hy]; simpl; [by repeat constructor|].
  destruct (cmp x y <=? 0) eqn:E.
  - apply Z.leb_le in E. by repeat constructor.
  - apply Z.leb_gt in E. constructor; [done|].
    apply insertBy_HdRel; [|done].
    destruct (total le y x) as [?|Hxy]; [done|]. unfold le in Hxy. lia.
Qed.

Lemma sort_Sorted `{!Total le} (l : list A) : Sorted le (sort cmp l).
Proof.
  induction l as [|x l IH]; simpl; [constructor|]. by apply insertBy_Sorted.
Qed.

Lemma sort_StronglySorted `{!Total le, !Transitive le} (l : list A) :
  StronglySorted le (sort cmp l).
Proof. apply Sorted_StronglySorted; [done|]. apply sort_Sorted. Qed.

End SortFacts.

Lemma StronglySorted_lookup_lt {A : Type} (R : relation A) (l : list A) (i j : nat) (a b : A) :
StronglySorted R l → l !! i = Some a → l !! j = Some b → (i < j)%nat → R a b.
Proof.
intros Hl. revert i j. induction Hl as [|x l Hl IH Hx]; intros i j Hi Hj Hij.
- by rewrite lookup_nil in Hi.
- destruct j as [|j]; [lia|]. simpl in Hj.
  destruct i as [|i]; simpl in Hi.
  + injection Hi as ->. rewrite Forall_forall in Hx.
    apply Hx. by eapply list_elem_of_lookup_2.
  + apply (IH i j); [done..|lia].
Qed.

(** ** components/Sidebar.tsx *)

Section SidebarFacts.
Import JS Types Sidebar Spec Fixtures.

Lemma before_iff (a b : ChatSession) :
  before a b ↔
    (truthyB (isPinned a) = true ∧ truthyB (isPinned b) = false) ∨
    (truthyB (isPinned a) = truthyB (isPinned b) ∧ updatedAt b ≤ updatedAt a).
Proof.
  unfold before, compareSessions.
  destruct (truthyB (isPinned a)), (truthyB (isPinned b)); simpl;
    intuition (try discriminate; lia).
Qed.

Global Instance before_Total : Total before.
Proof.
  intros a b. rewrite !before_iff.
  destruct (truthyB (isPinned a)), (truthyB (isPinned b));
    destruct (Z.le_ge_cases (updatedAt a) (updatedAt b)); auto.
Qed.

Global Instance before_Transitive : Transitive before.
Proof.
  intros a b c. rewrite !before_iff.
  destruct (truthyB (isPinned a)), (truthyB (isPinned b)), (truthyB (isPinned c));
    intuition (try discriminate; try lia).
Qed.

(** C9.  On every engine, the displayed list holds exactly the sessions
    whose lower-cased title contains the lower-cased search term (for ASCII
    titles and terms: whose title contains the term up to the case of the
    letters A-Z); every pinned session stands before every unpinned one;
    and of two sessions that are both pinned or both unpinned the earlier
    one was updated no earlier. *)
Theorem filteredSessions_spec (E : Engine) (sessions : list ChatSession)
    (searchTerm : jstring) :
  lowersAscii E →
  let shown := filteredSessions E sessions searchTerm in
  (∀ s, s ∈ shown ↔
          s ∈ sessions ∧
          includes (toLowerCase E (title s)) (toLowerCase E searchTerm) = true) ∧
  (isAscii searchTerm →
   ∀ s, isAscii (title s) →
        (s ∈ shown ↔
           s ∈ sessions ∧
           includes (asciiLower (title s)) (asciiLower searchTerm) = true)) ∧
  shown ≡ₚ filter (matchesSearch E searchTerm) sessions ∧
  (∀ (i j : nat) (a b : ChatSession),
      shown !! i = Some a → shown !! j = Some b → (i < j)%nat →
      (truthyB (isPinned b) = true → truthyB (isPinned a) = true) ∧
      (truthyB (isPinned a) = truthyB (isPinned b) → updatedAt b ≤ updatedAt a)).
Proof.
  intros HE shown.
  assert (Hperm : shown ≡ₚ filter (matchesSearch E searchTerm) sessions)
    by apply sort_Permutation.
  assert (Hmem : ∀ s, s ∈ shown ↔
            s ∈ sessions ∧
            includes (toLowerCase E (title s)) (toLowerCase E searchTerm) = true).
  { intros s. rewrite Hperm, list_elem_of_filter. unfold matchesSearch. tauto. }
  split; [exact Hmem|]. split; [|split; [exact Hperm|]].
  - intros Hterm s Htitle. rewrite Hmem, (HE _ Hterm), (HE _ Htitle). done.
  - intros i j a b Hi Hj Hij.
    assert (Hab : before a b).
    { eapply (StronglySorted_lookup_lt before shown i j); [|done..].
      apply (sort_StronglySorted compareSessions). }
    apply before_iff in Hab.
    destruct (truthyB (isPinned a)), (truthyB (isPinned b));
      intuition (try discriminate; try lia).
Qed.

Lemma filteredSessions_spec_witness :
  let shown := filteredSessions asciiEngine [trip; taxes; recipe] (js "TRIP") in
  (∀ s, s ∈ shown ↔
          s ∈ [trip; taxes; recipe] ∧
          includes (asciiLower (title s)) (js "trip") = true) ∧
  (isAscii (js "TRIP") →
   ∀ s, isAscii (title s) →
        (s ∈ shown ↔
           s ∈ [trip; taxes; recipe] ∧
           includes (asciiLower (title s)) (js "trip") = true)) ∧
  shown ≡ₚ filter (matchesSearch asciiEngine (js "TRIP")) [trip; taxes; recipe] ∧
  (∀ (i j : nat) (a b : ChatSession),
      shown !! i = Some a → shown !! j = Some b → (i < j)%nat →
      (truthyB (isPinned b) = true → truthyB (isPinned a) = true) ∧
      (truthyB (isPinned a) = truthyB (isPinned b) → updatedAt b ≤ updatedAt a)).
Proof.
  exact (filteredSessions_spec asciiEngine [trip; taxes; recipe] (js "TRIP")
           (λ s _, eq_refl)).
Defined.

(** The search is blind to the case of the letters: "TRIP" finds "Trip to
    Goa" and "TRIPLE check taxes", the pinned one first. *)
Example sidebar_examples :
  id <$> filteredSessions asciiEngine [trip; taxes; recipe] (js "TRIP")
    = [js "s2"; js "s1"] ∧
  id <$> filteredSessions asciiEngine [trip; taxes; recipe] []
    = [js "s2"; js "s3"; js "s1"].
Proof. split; vm_compute; reflexivity. Qed.

(** With an engine that lower-cases U+00C9 to U+00E9, the title "École de
    Paris" (U+00C9 first) is found by the term U+00E9 "COLE". *)
Example sidebar_follows_engine :
  let latin := {| toLowerCase := fmap (λ c, if (c =? 201)%N then 233%N else lowerChar c) |} in
  let ecole := {| id := js "s7"; title := [201%N] ++ js "cole de Paris"; messages := [];
                  createdAt := 1; updatedAt := 2; isPinned := None |} in
  filteredSessions latin [trip; ecole] ([233%N] ++ js "COLE") = [ecole].
Proof. vm_compute. reflexivity. Qed.

End SidebarFacts.

(** ** App.tsx: the session store *)

Section StoreFacts.
Import JS Types Gemini App Spec Fixtures.

Lemma withSessions_same (st : AppState) : withSessions (sessions st) st = st.
Proof. by destruct st. Qed.

Lemma handleDeleteSession_run (r : AppState) (id0 : jstring) (w : World) :
  sessions (ui (handleDeleteSession r id0 w).2) = filter (λ s, id s ≠ id0) (sessions (ui w)) ∧
  currentSessionId (ui (handleDeleteSession r id0 w).2) =
    if decide (currentSessionId r = Some id0) then None else currentSessionId (ui w).
Proof.
  unfold handleDeleteSession. destruct (decide (currentSessionId r = Some id0)); done.
Qed.

(** C3.  Deleting by an identifier leaves no session with that identifier
    and keeps every other session, in its place; the pointer to the
    current session becomes null when it was that identifier and is left
    as it was otherwise. *)
Theorem handleDeleteSession_spec (id0 : jstring) (w : World) :
  let w' := (handleDeleteSession (ui w) id0 w).2 in
  (∀ s, s ∈ sessions (ui w') ↔ s ∈ sessions (ui w) ∧ id s ≠ id0) ∧
  sessions (ui w') `sublist_of` sessions (ui w) ∧
  (currentSessionId (ui w) = Some id0 → currentSessionId (ui w') = None) ∧
  (currentSessionId (ui w) ≠ Some id0 →
     currentSessionId (ui w') = currentSessionId (ui w)).
Proof.
  intros w'. subst w'.
  destruct (handleDeleteSession_run (ui w) id0 w) as [-> ->].
  split; [|split; [|split]].
  - intros s. by rewrite list_elem_of_filter, (comm and).
  - apply sublist_filter.
  - intros E. by rewrite decide_True.
  - intros E. by rewrite decide_False.
Qed.

Example delete_examples :
  let w1 := (handleDeleteSession (ui chatting) (js "s1") chatting).2 in
  let w2 := (handleDeleteSession (ui chatting) (js "s2") chatting).2 in
  (sessions (ui w1) = [taxes] ∧ currentSessionId (ui w1) = None) ∧
  (sessions (ui w2) = [trip] ∧ currentSessionId (ui w2) = Some (js "s1")).
Proof. repeat split. Qed.

Lemma handlePinSession_run (id0 : jstring) (w : World) :
  (handlePinSession id0 w).2 =
    {| ui := withSessions
               ((λ s, if decide (id s = id0) then togglePin s else s) <$> sessions (ui w))
               (ui w);
       randCalls := randCalls w; clockCalls := clockCalls w |}.
Proof. reflexivity. Qed.

Lemma togglePin_samePinless (s : ChatSession) : samePinless s (togglePin s).
Proof. by repeat split. Qed.

Lemma samePinless_refl (s : ChatSession) : samePinless s s.
Proof. by repeat split. Qed.

(** C10.  Pinning changes at most the pinned flag of the sessions with the
    given identifier: every other session is the same record, a targeted
    one keeps its identifier, title, messages and timestamps, a collection
    without that identifier is unchanged, and so is every other cell. *)
Theorem handlePinSession_frame (id0 : jstring) (w : World) :
  let w' := (handlePinSession id0 w).2 in
  Forall2 (λ s s', samePinless s s' ∧ (id s ≠ id0 → s' = s))
          (sessions (ui w)) (sessions (ui w')) ∧
  ((∀ s, s ∈ sessions (ui w) → id s ≠ id0) → sessions (ui w') = sessions (ui w)) ∧
  ui w' = withSessions (sessions (ui w')) (ui w) ∧
  randCalls w' = randCalls w ∧ clockCalls w' = clockCalls w.
Proof.
  intros w'. subst w'. rewrite handlePinSession_run. simpl.
  split; [|split; [|done]].
  - apply Forall2_fmap_r, Forall_Forall2_diag, Forall_forall. intros s _.
    simpl. destruct (decide (id s = id0)) as [E|E]; split.
    + apply togglePin_samePinless.
    + intros N. by destruct N.
    + apply samePinless_refl.
    + done.
  - intros Hno. rewrite <- (list_fmap_id (sessions (ui w))) at 2.
    apply Forall_fmap_ext_1, Forall_forall. intros s Hs.
    by rewrite decide_False by auto.
Qed.

(** C8.  Pinning the same identifier twice gives every session the pinned
    state it had: each session with that identifier is toggled by the
    first call and toggled back by the second, so one that was unpinned is
    pinned after one call and unpinned again after two. *)
Theorem handlePinSession_twice (id0 : jstring) (w : World) :
  let once := sessions (ui (handlePinSession id0 w).2) in
  let twice := sessions (ui (handlePinSession id0 (handlePinSession id0 w).2).2) in
  Forall2 (λ s s', samePinless s s' ∧ truthyB (isPinned s') = truthyB (isPinned s))
          (sessions (ui w)) twice ∧
  (∀ (i : nat) (s : ChatSession),
      sessions (ui w) !! i = Some s → id s = id0 →
      ∃ s1 s2, once !! i = Some s1 ∧ twice !! i = Some s2 ∧ id s2 = id0 ∧
               truthyB (isPinned s1) = negb (truthyB (isPinned s)) ∧
               truthyB (isPinned s2) = truthyB (isPinned s) ∧
               (truthyB (isPinned s) = false →
                  truthyB (isPinned s1) = true ∧ truthyB (isPinned s2) = false)).
Proof.
  intros once twice. subst once twice. rewrite !handlePinSession_run. simpl.
  rewrite <- list_fmap_compose. split.
  - apply Forall2_fmap_r, Forall_Forall2_diag, Forall_forall. intros s _. simpl.
    destruct (decide (id s = id0)) as [E|E]; simpl.
    + destruct (decide (id s = id0)) as [_|N]; [|by destruct N].
      split; [by repeat split|]. simpl. apply negb_involutive.
    + destruct (decide (id s = id0)) as [E'|_]; [by destruct E|].
      split; [apply samePinless_refl|done].
  - intros i s Hi E. rewrite !list_lookup_fmap, Hi. simpl.
    destruct (decide (id s = id0)) as [_|N]; [simpl|by destruct N].
    destruct (decide (id s = id0)) as [_|N]; [simpl|by destruct N].
    eexists _, _. repeat split; simpl.
    + done.
    + apply negb_involutive.
    + by destruct (truthyB (isPinned s)).
    + by destruct (truthyB (isPinned s)).
Qed.

(** A session never pinned carries no flag; after two calls it carries
    [false]: the same pinned state, not the same record. *)
Example pin_twice_example :
  let once := (handlePinSession (js "s1") chatting).2 in
  let twice := (handlePinSession (js "s1") once).2 in
  isPinned <$> sessions (ui chatting) = [None; Some true] ∧
  isPinned <$> sessions (ui once) = [Some true; Some true] ∧
  isPinned <$> sessions (ui twice) = [Some false; Some true].
Proof. repeat split. Qed.

End StoreFacts.

(** ** App.tsx: creating sessions *)

Section NewChatFacts.
Import JS Types Gemini App Spec Fixtures.

(** What [handleNewChat] leaves behind, cell by cell. *)
Lemma handleNewChat_run (h : Host) (w : World) :
  let newSession :=
    {| id := (generateId h w).1; title := (js "New Conversation"); messages := [];
       createdAt := dateNow h (clockCalls w);
       updatedAt := dateNow h (S (clockCalls w)); isPinned := None |} in
  sessions (ui (handleNewChat h w).2) = newSession :: sessions (ui w) ∧
  currentSessionId (ui (handleNewChat h w).2) = Some (id newSession).
Proof.
  unfold handleNewChat, mbind, M_bind. simpl.
  destruct (innerWidth h <? 768); done.
Qed.


End NewChatFacts.

(** ** App.tsx: the send flow *)

Section MonadFacts.
Import JS Types Gemini App Spec.

(** A [map] whose function only reads the clock leaves the cells alone
    and relates the lists element by element. *)
Lemma mapM_ui {A B : Type} (f : A → M B) (l : list A) (w : World) :
  (∀ x w0, ui (f x w0).2 = ui w0) → ui (mapM f l w).2 = ui w.
Proof.
  intros Hf. revert w. induction l as [|x l IH]; intros w; [done|].
  simpl. unfold mbind, M_bind.
  destruct (f x w) as [y w1] eqn:E1.
  destruct (mapM f l w1) as [ys w2] eqn:E2. simpl.
  specialize (IH w1). rewrite E2 in IH. simpl in IH. rewrite IH.
  specialize (Hf x w). by rewrite E1 in Hf.
Qed.

Lemma mapM_Forall2 {A B : Type} (f : A → M B) (R : A → B → Prop) (l : list A) (w : World) :
  (∀ x w0, R x (f x w0).1) → Forall2 R l (mapM f l w).1.
Proof.
  intros Hf. revert w. induction l as [|x l IH]; intros w; [by constructor|].
  simpl. unfold mbind, M_bind.
  destruct (f x w) as [y w1] eqn:E1.
  destruct (mapM f l w1) as [ys w2] eqn:E2. simpl.
  constructor.
  - specialize (Hf x w). by rewrite E1 in Hf.
  - specialize (IH w1). by rewrite E2 in IH.
Qed.

Lemma appendUserMsg_ui h target textToSend userMsg s w :
  ui (appendUserMsg h target textToSend userMsg s w).2 = ui w.
Proof. unfold appendUserMsg. by destruct (decide _). Qed.

Lemma appendBotMsg_ui h target botMsg s w :
  ui (appendBotMsg h target botMsg s w).2 = ui w.
Proof. unfold appendBotMsg. by destruct (decide _). Qed.

Lemma appendUserMsg_appended h target textToSend userMsg s w :
  appended target userMsg s (appendUserMsg h target textToSend userMsg s w).1.
Proof.
  unfold appended, appendUserMsg. by destruct (decide (Some (id s) = target)).
Qed.

Lemma appendBotMsg_appended h target botMsg s w :
  appended target botMsg s (appendBotMsg h target botMsg s w).1.
Proof.
  unfold appended, appendBotMsg. by destruct (decide (Some (id s) = target)).
Qed.

Lemma appendErrorMsg_appended target errorMsg s :
  appended target errorMsg s (appendErrorMsg target errorMsg s).
Proof.
  unfold appended, appendErrorMsg. by destruct (decide (Some (id s) = target)).
Qed.

(** Two appends in a row. *)
Lemma appended_twice target m1 m2 s1 s2 s3 :
  appended target m1 s1 s2 → appended target m2 s2 s3 →
  id s3 = id s1 ∧
  if decide (Some (id s1) = target)
  then messages s3 = messages s1 ++ [m1; m2]
  else s3 = s1.
Proof.
  intros (Hid1 & _ & _ & H1) (Hid2 & _ & _ & H2).
  rewrite Hid1 in H2. split; [congruence|].
  destruct (decide (Some (id s1) = target)).
  - rewrite H2, H1, <- app_assoc. done.
  - congruence.
Qed.

Lemma Forall2_compose {A B C : Type} (R1 : A → B → Prop) (R2 : B → C → Prop)
    (R : A → C → Prop) (l1 : list A) (l2 : list B) (l3 : list C) :
  (∀ a b c, R1 a b → R2 b c → R a c) →
  Forall2 R1 l1 l2 → Forall2 R2 l2 l3 → Forall2 R l1 l3.
Proof.
  intros HR H12. revert l3.
  induction H12 as [|a b l1 l2 Hab _ IH]; intros l3 H23; inversion H23; subst;
    constructor; eauto.
Qed.

End MonadFacts.

(** Name the result of the [mapM f] in [E], with what is known of it. *)
Ltac run_mapM E f Hui Hrel fui frel l' w' :=
match type of E with
| context [App.mapM f ?l ?w0] =>
    pose proof (mapM_ui f l w0 fui) as Hui;
    pose proof (mapM_Forall2 f _ l w0 frel) as Hrel;
    destruct (App.mapM f l w0) as [l' w']; simpl in Hui, Hrel, E
end.

Section SendFacts.
Import JS Types Gemini App Spec Fixtures.

(** With no current session the handler creates one and returns. *)
Lemma handleSend_no_session (h : Host) (r : AppState) (w : World) overrideText isImageGenMode :
  truthy (currentSessionId r) = false →
  let w' := (handleSend h r overrideText isImageGenMode w).2 in
  let newSession :=
    {| id := (generateId h w).1;
       title := orElse (substring 0 30 (textOf r overrideText)) (js "New Chat");
       messages := []; createdAt := dateNow h (clockCalls w);
       updatedAt := dateNow h (S (clockCalls w)); isPinned := None |} in
  sessions (ui w') = newSession :: sessions (ui w) ∧
  currentSessionId (ui w') = Some (id newSession) ∧
  input (ui w') = input (ui w) ∧
  isTyping (ui w') = isTyping (ui w).
Proof.
  intros Hnone. unfold handleSend. rewrite Hnone. simpl.
  rewrite orb_true_r. done.
Qed.

(** With a current session and nothing to send the handler does nothing. *)
Lemma handleSend_idle (h : Host) (r : AppState) (w : World) overrideText isImageGenMode :
  truthy (currentSessionId r) = true →
  truthyS (trim (textOf r overrideText)) || truthy (selectedImage r) = false →
  (handleSend h r overrideText isImageGenMode w).2 = w.
Proof.
  intros Hcur Hnothing. apply orb_false_iff in Hnothing as [Ht Hi].
  unfold handleSend. fold (textOf r overrideText).
  rewrite Hcur, Ht, Hi. by destruct w.
Qed.

(** With a current session and something to send: the user's turn is
    appended, the gateway is asked, and its reply, or the fixed error text
    when it throws, is appended; the typing flag ends false. *)
Lemma handleSend_main (h : Host) (r : AppState) (w : World) overrideText isImageGenMode :
  truthy (currentSessionId r) = true →
  truthyS (trim (textOf r overrideText)) || truthy (selectedImage r) = true →
  let w' := (handleSend h r overrideText isImageGenMode w).2 in
  let target := currentSessionId r in
  let textToSend := textOf r overrideText in
  ∃ userMsg mid,
    role userMsg = USER ∧ text userMsg = textToSend ∧
    imageUrl userMsg = orUndefined (selectedImage r) ∧
    Forall2 (appended target userMsg) (sessions (ui w)) mid ∧
    isTyping (ui w') = false ∧ input (ui w') = [] ∧
    currentSessionId (ui w') = currentSessionId (ui w) ∧
    match gatewayReply h r target textToSend userMsg isImageGenMode with
    | Returned (responseText, responseImage, msgType, prompt) =>
        ∃ botMsg,
          role botMsg = MODEL ∧ text botMsg = responseText ∧
          imageUrl botMsg = responseImage ∧ type botMsg = msgType ∧
          Forall2 (appended target botMsg) mid (sessions (ui w'))
    | Thrown _ =>
        ∃ errorMsg,
          role errorMsg = MODEL ∧ text errorMsg = disruptedReply ∧
          type errorMsg = TEXT ∧
          Forall2 (appended target errorMsg) mid (sessions (ui w'))
    end.
Proof.
  intros Hcur Hsome w' target textToSend. subst w'.
  remember (handleSend h r overrideText isImageGenMode w) as res eqn:E.
  unfold handleSend in E. fold (textOf r overrideText) in E.
  fold textToSend in E, Hsome. apply orb_true_iff in Hsome.
  assert (Hguard : negb (truthyS (trim textToSend)) && negb (truthy (selectedImage r))
                   || negb (truthy (currentSessionId r)) = false).
  { rewrite Hcur. destruct Hsome as [-> | ->]; simpl; [done|].
    by rewrite andb_false_r. }
  rewrite Hguard, Hcur in E. simpl in E. fold target in E.
  unfold mbind, M_bind, mret, M_ret, setSessions in E. simpl in E.
  set (userMsg := {| msg_id := _ |}) in E.
  run_mapM E (appendUserMsg h target textToSend userMsg) Hui1 Hmid
           (appendUserMsg_ui h target textToSend userMsg)
           (appendUserMsg_appended h target textToSend userMsg) mid w1.
  exists userMsg, mid.
  split; [done|]. split; [done|]. split; [done|]. split; [exact Hmid|].
  destruct (gatewayReply h r target textToSend userMsg isImageGenMode)
    as [[[[responseText responseImage] msgType] prompt]|e]; simpl in E.
  - set (botMsg := {| msg_id := _ |}) in E.
    run_mapM E (appendBotMsg h target botMsg) Hui2 Hfin
             (appendBotMsg_ui h target botMsg)
             (appendBotMsg_appended h target botMsg) fin w2.
    subst res. simpl. rewrite Hui2. simpl. rewrite Hui1.
    split; [done|]. split; [done|]. split; [done|].
    exists botMsg. by repeat split.
  - set (errorMsg := {| msg_id := _ |}) in E.
    subst res. simpl. rewrite Hui1.
    split; [done|]. split; [done|]. split; [done|].
    exists errorMsg. repeat split.
    apply Forall2_fmap_r, Forall_Forall2_diag, Forall_forall. intros s _.
    apply appendErrorMsg_appended.
Qed.

End SendFacts.

Section FlowFacts.
Import JS Types Gemini App Spec Fixtures.

(** C1 fails on the code.  Sending "hello" with no current session creates
    one session titled "hello" and makes it current, and then returns: the
    session has no message, the input is not cleared and the gateway is
    not asked. *)
Theorem handleSend_no_session_drops_message :
  let w' := (dispatch freshHost (Send None false) boot).2 in
  truthyS (trim (input (ui boot))) = true ∧
  currentSessionId (ui boot) = None ∧
  sessions (ui boot) = [] ∧
  sessions (ui w') =
    [{| id := (js "a-uuid"); title := (js "hello"); messages := [];
        createdAt := 1700000000000; updatedAt := 1700000000001;
        isPinned := None |}] ∧
  currentSessionId (ui w') = Some (js "a-uuid") ∧
  input (ui w') = (js "hello") ∧
  isTyping (ui w') = false.
Proof. repeat split. Qed.

(** The same send again, now with a current session, does append. *)
Example second_press_appends :
  let w1 := (dispatch freshHost (Send None false) boot).2 in
  let w2 := (dispatch freshHost (Send None false) w1).2 in
  (λ s, (role <$> messages s, text <$> messages s)) <$> sessions (ui w2)
    = [([USER; MODEL], [(js "hello"); (js "Namaste!")])] ∧
  input (ui w2) = [].
Proof. split; reflexivity. Qed.

(** The gateway call of a send throws exactly when the image path is
    taken and the image operation throws. *)
Lemma gatewayReply_Thrown h r target textToSend userMsg isImageGenMode e :
  gatewayReply h r target textToSend userMsg isImageGenMode = Thrown e ↔
    isImageGenMode || isImageGenerationRequest (engine h) textToSend = true ∧
    generateImageWithGemini (ai h) textToSend = Thrown e.
Proof.
  unfold gatewayReply.
  destruct (isImageGenMode || isImageGenerationRequest (engine h) textToSend);
    [destruct (generateImageWithGemini (ai h) textToSend) as [img|e'];
       [destruct (truthy img)|]|];
    split; intros H;
    repeat match goal with
           | H : _ ∧ _ |- _ => destruct H
           | H : Returned _ = Thrown _ |- _ => discriminate H
           | H : false = true |- _ => discriminate H
           | H : Thrown _ = Thrown _ |- _ => injection H as ->
           end; done.
Qed.

(** C2.  A send that reaches the gateway ends with the typing flag false,
    whatever the gateway did; and when the gateway call throws, every
    session with the target identifier has gained exactly the user's
    message followed by one model-role message with the fixed error text,
    and every other session is as it was. *)
Theorem handleSend_gateway_throws (h : Host) (w : World) overrideText isImageGenMode :
  truthy (currentSessionId (ui w)) = true →
  truthyS (trim (textOf (ui w) overrideText)) || truthy (selectedImage (ui w)) = true →
  let textToSend := textOf (ui w) overrideText in
  let w' := (handleSend h (ui w) overrideText isImageGenMode w).2 in
  isTyping (ui w') = false ∧
  ∀ e : string,
    isImageGenMode || isImageGenerationRequest (engine h) textToSend = true →
    generateImageWithGemini (ai h) textToSend = Thrown e →
    ∃ userMsg errorMsg,
      role userMsg = USER ∧ text userMsg = textToSend ∧
      role errorMsg = MODEL ∧ text errorMsg = disruptedReply ∧
      Forall2 (λ s s', id s' = id s ∧
                       if decide (Some (id s) = currentSessionId (ui w))
                       then messages s' = messages s ++ [userMsg; errorMsg]
                       else s' = s)
              (sessions (ui w)) (sessions (ui w')).
Proof.
  intros Hcur Hsome textToSend w'.
  destruct (handleSend_main h (ui w) w overrideText isImageGenMode Hcur Hsome)
    as (userMsg & mid & Hrole & Htext & _ & Hmid & Htyping & _ & _ & Hreply).
  split; [exact Htyping|].
  intros e Himage Hthrow.
  assert (Hg : gatewayReply h (ui w) (currentSessionId (ui w)) textToSend userMsg
                 isImageGenMode = Thrown e) by by apply gatewayReply_Thrown.
  fold textToSend in Hreply. rewrite Hg in Hreply.
  destruct Hreply as (errorMsg & Herole & Hetext & _ & Hfin).
  exists userMsg, errorMsg. repeat split; [done..|].
  eapply Forall2_compose; [|exact Hmid|exact Hfin].
  intros s1 s2 s3. apply appended_twice.
Qed.

Lemma handleSend_gateway_throws_witness :
  let w' := (handleSend freshHost (ui chatting) None false chatting).2 in
  isTyping (ui w') = false ∧
  ∃ userMsg errorMsg,
    role userMsg = USER ∧ text userMsg = (js "draw a cat") ∧
    role errorMsg = MODEL ∧ text errorMsg = disruptedReply ∧
    Forall2 (λ s s', id s' = id s ∧
                     if decide (Some (id s) = Some (js "s1"))
                     then messages s' = messages s ++ [userMsg; errorMsg]
                     else s' = s)
            [trip; taxes] (sessions (ui w')).
Proof.
  destruct (handleSend_gateway_throws freshHost chatting None false eq_refl eq_refl)
    as [Htyping Hthrow].
  split; [exact Htyping|].
  exact (Hthrow "quota exceeded" eq_refl eq_refl).
Defined.

Example failed_drawing_example :
  let w' := (handleSend freshHost (ui chatting) None false chatting).2 in
  (λ s, (id s, role <$> messages s, text <$> messages s)) <$> sessions (ui w')
    = [((js "s1"), [USER; MODEL], [(js "draw a cat"); disruptedReply]); ((js "s2"), [], [])] ∧
  isTyping (ui w') = false.
Proof. split; reflexivity. Qed.

Lemma appended_extends target msg s s' : appended target msg s s' → extends s s'.
Proof.
  intros (Hid & _ & _ & H). split; [done|].
  destruct (decide (Some (id s) = target)).
  - rewrite H. by apply prefix_app_r.
  - by subst s'.
Qed.

Lemma extends_refl s : extends s s.
Proof. by split. Qed.

Lemma extends_trans s1 s2 s3 : extends s1 s2 → extends s2 s3 → extends s1 s3.
Proof. intros [E1 P1] [E2 P2]. split; [congruence|]. by etrans. Qed.

Lemma Forall2_extends_refl (l : list ChatSession) : Forall2 extends l l.
Proof. apply Forall_Forall2_diag, Forall_forall. intros s _. apply extends_refl. Qed.

(** What a send leaves of the sessions, for any render it closed over. *)
Lemma handleSend_extends (h : Host) (r : AppState) (w : World) overrideText isImageGenMode :
  ∃ created kept,
    sessions (ui (handleSend h r overrideText isImageGenMode w).2) = created ++ kept ∧
    Forall (λ s, messages s = []) created ∧
    Forall2 extends (sessions (ui w)) kept.
Proof.
  destruct (truthy (currentSessionId r)) eqn:Hcur.
  - destruct (truthyS (trim (textOf r overrideText)) || truthy (selectedImage r)) eqn:Hsome.
    + destruct (handleSend_main h r w overrideText isImageGenMode Hcur Hsome)
        as (userMsg & mid & _ & _ & _ & Hmid & _ & _ & _ & Hreply).
      exists [], (sessions (ui (handleSend h r overrideText isImageGenMode w).2)).
      split; [done|]. split; [constructor|].
      destruct (gatewayReply _ _ _ _ _ _) as [[[[? ?] ?] ?]|?];
        destruct Hreply as (msg & Hfin); destruct_and!;
        (eapply Forall2_compose; [apply extends_trans| |]);
        (eapply Forall2_impl; [eassumption|]); eauto using appended_extends.
    + rewrite (handleSend_idle h r w overrideText isImageGenMode Hcur Hsome).
      exists [], (sessions (ui w)). split; [done|]. split; [constructor|].
      apply Forall2_extends_refl.
  - destruct (handleSend_no_session h r w overrideText isImageGenMode Hcur)
      as (Hs & _). rewrite Hs.
    eexists [_], (sessions (ui w)). split; [done|].
    split; [by repeat constructor|]. apply Forall2_extends_refl.
Qed.

(** C7.  After any event of the session store or the send flow the
    collection is: sessions created by the event, with no message, and
    then the sessions the event kept, in their order, each with the
    messages it had as a prefix of the messages it has. *)
Theorem dispatch_preserves_messages (h : Host) (ev : Event) (w : World) :
  ∃ created kept,
    sessionsAfter h ev w = created ++ kept ∧
    Forall (λ s, messages s = []) created ∧
    Forall2 extends (survivors ev (sessions (ui w))) kept.
Proof.
  unfold sessionsAfter, dispatch.
  destruct ev as [|id0|id0|id0| |overrideText g|]; cbv beta iota zeta.
  - destruct (handleNewChat_run h w) as [-> _].
    eexists [_], (sessions (ui w)). split; [done|].
    split; [by repeat constructor|]. apply Forall2_extends_refl.
  - destruct (handleDeleteSession_run (ui w) id0 w) as [-> _].
    exists [], (filter (λ s, id s ≠ id0) (sessions (ui w))). split; [done|].
    split; [constructor|]. apply Forall2_extends_refl.
  - rewrite handlePinSession_run. simpl.
    eexists [], _. split; [done|]. split; [constructor|].
    apply Forall2_fmap_r, Forall_Forall2_diag, Forall_forall. intros s _. simpl.
    destruct (decide (id s = id0)); by split.
  - exists [], (sessions (ui w)). split.
    + unfold handleSessionSelect, requireAuth. by destruct (isLoggedIn (ui w)).
    + split; [constructor|]. apply Forall2_extends_refl.
  - exists [], []. split; [done|]. split; constructor.
  - apply handleSend_extends.
  - unfold handleRegenerateImage.
    destruct (previewData (ui w)) as [pd|]; [destruct (truthy (pv_prompt pd))|].
    + unfold mbind, M_bind. simpl.
      match goal with
      | |- context [handleSend h ?r ?o ?g ?w0] =>
          destruct (handleSend_extends h r w0 o g) as (created & kept & E & Hc & Hk)
      end.
      exists created, kept. by repeat split.
    + exists [], (sessions (ui w)). split; [done|]. split; [constructor|].
      apply Forall2_extends_refl.
    + exists [], (sessions (ui w)). split; [done|]. split; [constructor|].
      apply Forall2_extends_refl.
Qed.

Example two_sends_example :
  let w1 := (dispatch paintingHost (Send (Some (js "hi")) false) chatting).2 in
  let w2 := (dispatch paintingHost (Send (Some (js "imagine a fort")) false) w1).2 in
  (λ s, (id s, text <$> messages s)) <$> sessions (ui w2)
    = [((js "s1"), [(js "hi"); (js "Namaste!"); (js "imagine a fort"); imageReply (js "imagine a fort")]);
       ((js "s2"), [])].
Proof. reflexivity. Qed.

End FlowFacts.

(** * Further properties of the code *)

(** ** services/gemini.ts: data URIs *)

Section DataUriFacts.
Import JS Types Gemini Request Props Fixtures.

Lemma stripPrefix_app (p s : jstring) : stripPrefix p (p ++ s) = Some s.
Proof.
  induction p as [|c p IH]; [done|]. simpl. by rewrite N.eqb_refl.
Qed.

Lemma stripPrefix_Some (p s r : jstring) : stripPrefix p s = Some r → s = p ++ r.
Proof.
  revert s. induction p as [|c p IH]; intros s H; simpl in H.
  - by injection H as ->.
  - destruct s as [|d s]; [done|].
    destruct (N.eqb d c) eqn:E; [|done].
    apply N.eqb_eq in E. subst d. apply IH in H. by subst s.
Qed.

Lemma stripPrefix_startsWith (p s : jstring) :
  stripPrefix p s = None ↔ startsWith s p = false.
Proof.
  revert s. induction p as [|c p IH]; intros s; simpl; [done|].
  destruct s as [|d s]; [done|]. destruct (N.eqb d c); simpl; [apply IH|done].
Qed.

(** X1.  Stripping undoes the header of each of the four formats. *)
Theorem cleanBase64_strips_header :
  Forall (λ header, ∀ data : jstring, cleanBase64 (header ++ data) = data)
         base64Headers.
Proof.
  unfold base64Headers.
  repeat (apply Forall_cons; split; [intros data; vm_compute; reflexivity|]).
  apply Forall_nil_2.
Qed.

(** X2.  [cleanBase64] removes one leading header of the four formats and
    nothing else: a string without such a header is returned as it is. *)
Theorem cleanBase64_cases (dataUri : jstring) :
  (∃ header, header ∈ base64Headers ∧ dataUri = header ++ cleanBase64 dataUri) ∨
  (cleanBase64 dataUri = dataUri ∧
   Forall (λ header, startsWith dataUri header = false) base64Headers).
Proof.
  unfold cleanBase64, base64Headers. cbn [foldr].
  destruct (stripPrefix (js "data:image/png;base64,") dataUri) as [r|] eqn:E1;
    [left; exists (js "data:image/png;base64,");
     split; [rewrite !elem_of_cons; tauto|by apply stripPrefix_Some]|].
  destruct (stripPrefix (js "data:image/jpeg;base64,") dataUri) as [r|] eqn:E2;
    [left; exists (js "data:image/jpeg;base64,");
     split; [rewrite !elem_of_cons; tauto|by apply stripPrefix_Some]|].
  destruct (stripPrefix (js "data:image/webp;base64,") dataUri) as [r|] eqn:E3;
    [left; exists (js "data:image/webp;base64,");
     split; [rewrite !elem_of_cons; tauto|by apply stripPrefix_Some]|].
  destruct (stripPrefix (js "data:image/heic;base64,") dataUri) as [r|] eqn:E4;
    [left; exists (js "data:image/heic;base64,");
     split; [rewrite !elem_of_cons; tauto|by apply stripPrefix_Some]|].
  right. split; [done|].
  apply stripPrefix_startsWith in E1, E2, E3, E4.
  repeat (apply Forall_cons; split; [assumption|]). apply Forall_nil_2.
Qed.

Lemma spanWord_app (w rest : jstring) :
  allWord w = true → startsWith rest (js ";") = true → spanWord (w ++ rest) = (w, rest).
Proof.
  intros Hw Hrest. induction w as [|c w IH]; simpl in *.
  - destruct rest as [|d rest]; [done|]. simpl in Hrest.
    apply andb_true_iff in Hrest as [Hd _]. apply N.eqb_eq in Hd. by subst d.
  - apply andb_true_iff in Hw as [Hc Hw]. rewrite Hc, (IH Hw). done.
Qed.

Lemma getMimeType_wellformed (subtype data : jstring) :
  allWord subtype = true → truthyS subtype = true →
  getMimeType (js "data:image/" ++ subtype ++ js ";base64," ++ data)
    = js "image/" ++ subtype.
Proof.
  intros Hw Hne. unfold getMimeType.
  rewrite (stripPrefix_app (js "data:image/")).
  rewrite (spanWord_app subtype (js ";base64," ++ data) Hw eq_refl).
  by rewrite Hne, (startsWith_app (js ";base64,") data).
Qed.

(** X3.  The type of a well-formed image data URI is read off its header;
    any other string is given the type image/jpeg. *)
Theorem getMimeType_cases (dataUri : jstring) :
  (∀ subtype data : jstring,
     allWord subtype = true → truthyS subtype = true →
     dataUri = js "data:image/" ++ subtype ++ js ";base64," ++ data →
     getMimeType dataUri = js "image/" ++ subtype) ∧
  (startsWith dataUri (js "data:image/") = false → getMimeType dataUri = js "image/jpeg") ∧
  startsWith (getMimeType dataUri) (js "image/") = true.
Proof.
  split; [|split].
  - intros subtype data Hw Hne ->. by apply getMimeType_wellformed.
  - intros H. apply stripPrefix_startsWith in H. unfold getMimeType. by rewrite H.
  - unfold getMimeType.
    destruct (stripPrefix (js "data:image/") dataUri) as [rest|]; [|done].
    destruct (spanWord rest) as [w tl].
    destruct (truthyS w && startsWith tl (js ";base64,")); [|done].
    apply (startsWith_app (js "image/") w).
Qed.

Example getMimeType_examples :
  getMimeType (js "data:image/png;base64,iVBOR") = js "image/png" ∧
  getMimeType (js "data:image/svg+xml;base64,PHN2") = js "image/jpeg" ∧
  getMimeType (js "data:text/plain;base64,aGk=") = js "image/jpeg" ∧
  getMimeType [] = js "image/jpeg".
Proof. repeat split. Qed.

End DataUriFacts.

Section OtherTypesFacts.
Import JS Types Gemini Request Props Fixtures.

Lemma isWordChar_semicolon (c : N) : isWordChar c = true → N.eqb c 59 = false.
Proof.
  intros H. destruct (N.eqb c 59) eqn:E; [|done].
  apply N.eqb_eq in E. by subst c.
Qed.

(** Two word-only subtypes followed by [;] match only when they are equal. *)
Lemma word_header_inj (f w p q r : jstring) :
  allWord f = true → allWord w = true →
  stripPrefix (f ++ js ";" ++ p) (w ++ js ";" ++ q) = Some r → f = w.
Proof.
  revert w. induction f as [|c f IH]; intros w Hf Hw H;
    destruct w as [|d w]; cbn [app js fmap list_fmap list_ascii_of_string] in H;
    cbn [stripPrefix] in H; cbn [allWord] in Hf, Hw.
  - done.
  - apply andb_true_iff in Hw as [Hd _].
    change (N_of_ascii ";") with 59%N in H.
    by rewrite (isWordChar_semicolon d Hd) in H.
  - apply andb_true_iff in Hf as [Hc Hf].
    change (N_of_ascii ";") with 59%N in H.
    destruct (N.eqb 59 c) eqn:E; [|done].
    apply N.eqb_eq in E. by subst c.
  - apply andb_true_iff in Hf as [Hc Hf]. apply andb_true_iff in Hw as [_ Hw].
    destruct (N.eqb d c) eqn:E; [|done].
    apply N.eqb_eq in E. subst d. f_equal.
    by apply IH.
Qed.

Lemma cleanBase64_no_header (dataUri : jstring) :
  Forall (λ header, stripPrefix header dataUri = None) base64Headers →
  cleanBase64 dataUri = dataUri.
Proof.
  intros H. unfold cleanBase64, base64Headers in *. cbn [foldr].
  repeat (apply Forall_cons in H as [-> H]). done.
Qed.

(** X4.  An image of a format outside the four keeps its header in the
    data although its type is read off that header: the two helpers
    disagree on which data URIs they understand. *)
Theorem cleanBase64_other_type (subtype data : jstring) :
  allWord subtype = true → truthyS subtype = true →
  subtype ∉ [js "png"; js "jpeg"; js "webp"; js "heic"] →
  let dataUri := js "data:image/" ++ subtype ++ js ";base64," ++ data in
  cleanBase64 dataUri = dataUri ∧ getMimeType dataUri = js "image/" ++ subtype.
Proof.
  intros Hw Hne Hother dataUri. split; [|by apply getMimeType_wellformed].
  apply cleanBase64_no_header.
  repeat (apply Forall_cons; split); [..|constructor];
    match goal with
    | |- stripPrefix ?h _ = None =>
        destruct (stripPrefix h dataUri) as [r|] eqn:E; [|done]
    end; exfalso; apply Hother; rewrite !elem_of_cons.
  - apply (word_header_inj (js "png") subtype (js "base64,") (js "base64," ++ data) r)
      in E; auto.
  - apply (word_header_inj (js "jpeg") subtype (js "base64,") (js "base64," ++ data) r)
      in E; auto.
  - apply (word_header_inj (js "webp") subtype (js "base64,") (js "base64," ++ data) r)
      in E; auto.
  - apply (word_header_inj (js "heic") subtype (js "base64,") (js "base64," ++ data) r)
      in E; auto 6.
Qed.

Lemma cleanBase64_other_type_witness :
  cleanBase64 (js "data:image/gif;base64,R0lGOD") = js "data:image/gif;base64,R0lGOD" ∧
  getMimeType (js "data:image/gif;base64,R0lGOD") = js "image/gif".
Proof.
  apply (cleanBase64_other_type (js "gif") (js "R0lGOD")); [reflexivity..|].
  rewrite !elem_of_cons, elem_of_nil. intros [H|[H|[H|[H|[]]]]]; discriminate H.
Defined.

End OtherTypesFacts.

(** ** services/gemini.ts: the two operations *)

Section OperationFacts.
Import JS Types Gemini Request Props Fixtures.

Lemma orElse_truthy (a b : jstring) : truthyS b = true → truthyS (orElse a b) = true.
Proof. intros Hb. unfold orElse. by destruct (truthyS a) eqn:E. Qed.

(** X5.  The chat operation always returns a non-empty text: the model's, or
    one of its two fixed fallbacks when the model is silent or the call
    throws. *)
Theorem sendMessageToGemini_nonempty (ai : Remote) (history : list ChatMessage)
    (currentMessage : jstring) (currentImage : option jstring) :
  let reply := sendMessageToGemini ai history currentMessage currentImage in
  truthyS reply = true ∧
  (∀ e, generateContent ai (chatRequest history currentMessage currentImage) = Thrown e →
        reply = chatFailure) ∧
  (∀ response,
     generateContent ai (chatRequest history currentMessage currentImage)
       = Returned response →
     truthy (resp_text response) = false →
     reply = (js "I'm having trouble speaking right now.")).
Proof.
  intros reply. subst reply. unfold sendMessageToGemini.
  change (generateContent ai _) with
    (generateContent ai (chatRequest history currentMessage currentImage)).
  destruct (generateContent ai _) as [response|e].
  - split; [by apply orElse_truthy|]. split; [done|].
    intros ? [= <-] Hsilent. unfold orElse.
    destruct (resp_text response) as [t|]; simpl in *; [by rewrite Hsilent|done].
  - split; [done|]. split; [done|]. intros ? [=].
Qed.

Example sendMessageToGemini_examples :
  sendMessageToGemini failingRemote [] (js "hi") None = (js "Namaste!") ∧
  sendMessageToGemini emptyRemote [] (js "hi") None
    = (js "I'm having trouble speaking right now.").
Proof. split; reflexivity. Qed.

Lemma historyContent_role (msg : ChatMessage) : c_role (historyContent msg) = roleName msg.
Proof. reflexivity. Qed.

Lemma historyContent_parts (msg : ChatMessage) :
  last (parts (historyContent msg)) = Some (Text (text msg)) ∧
  length (parts (historyContent msg)) = if truthy (imageUrl msg) then 2%nat else 1%nat.
Proof. unfold historyContent. simpl. by destruct (truthy (imageUrl msg)). Qed.

(** The parts of a turn: the image, when there is one, then the text. *)
Lemma historyContent_image (msg : ChatMessage) :
  parts (historyContent msg) =
    match imageUrl msg with
    | Some (c :: url) =>
        [InlineData (js "image/jpeg") (cleanBase64 (c :: url)); Text (text msg)]
    | _ => [Text (text msg)]
    end.
Proof. unfold historyContent. simpl. by destruct (imageUrl msg) as [[|c url]|]. Qed.

(** X6.  The chat request carries the whole history, turn by turn in order and
    each turn ending with its text, followed by one user turn that ends
    with the new message; nothing is left out or cut short.  A turn with an
    image has exactly one more part, in front of the text: inline data of
    type image/jpeg for a history turn and of the type [getMimeType] reads
    for the new message, with the bytes [cleanBase64] leaves; for a new
    image [data:image/<subtype>;base64,<bytes>] of the four header formats
    these are [image/<subtype>] and [<bytes>]. *)
Theorem chatRequest_turns (history : list ChatMessage) (currentMessage : jstring)
    (currentImage : option jstring) :
  let request := chatRequest history currentMessage currentImage in
  (∀ ai, sendMessageToGemini ai history currentMessage currentImage =
           match generateContent ai request with
           | Returned response =>
               orElse (default [] (resp_text response))
                      (js "I'm having trouble speaking right now.")
           | Thrown _ => chatFailure
           end) ∧
  gc_model request = (js "gemini-2.5-flash") ∧
  systemInstruction request = SYSTEM_INSTRUCTION ∧
  c_role <$> contents request = (roleName <$> history) ++ [(js "user")] ∧
  Forall2 (λ msg turn,
             last (parts turn) = Some (Text (text msg)) ∧
             length (parts turn) = if truthy (imageUrl msg) then 2%nat else 1%nat)
          history (take (length history) (contents request)) ∧
  (∃ turn, contents request !! length history = Some turn ∧
           last (parts turn) = Some (Text currentMessage) ∧
           length (parts turn) = if truthy currentImage then 2%nat else 1%nat) ∧
  length (contents request) = S (length history) ∧
  Forall2 (λ msg turn,
             parts turn =
               match imageUrl msg with
               | Some (c :: url) =>
                   [InlineData (js "image/jpeg") (cleanBase64 (c :: url));
                    Text (text msg)]
               | _ => [Text (text msg)]
               end)
          history (take (length history) (contents request)) ∧
  (parts <$> contents request !! length history) =
    Some match currentImage with
         | Some (c :: img) =>
             [InlineData (getMimeType (c :: img)) (cleanBase64 (c :: img));
              Text currentMessage]
         | _ => [Text currentMessage]
         end ∧
  Forall (λ subtype, ∀ bytes,
            currentImage = Some (js "data:image/" ++ subtype ++ js ";base64," ++ bytes) →
            (parts <$> contents request !! length history) =
              Some [InlineData (js "image/" ++ subtype) bytes; Text currentMessage])
         [js "png"; js "jpeg"; js "webp"; js "heic"].
Proof.
  intros request. subst request.
  split; [reflexivity|]. split; [reflexivity|]. split; [reflexivity|].
  unfold chatRequest. cbn [contents].
  assert (Hlast : ∀ newParts,
            ((historyContent <$> history) ++ [{| c_role := js "user"; parts := newParts |}])
              !! length history = Some {| c_role := js "user"; parts := newParts |}).
  { intros newParts. rewrite lookup_app_r; rewrite length_fmap; [|done].
    by rewrite Nat.sub_diag. }
  split; [|split; [|split; [|split; [|split; [|split]]]]].
  - rewrite fmap_app, <- list_fmap_compose. done.
  - rewrite take_app_length'; [|by rewrite length_fmap].
    apply Forall2_fmap_r, Forall_Forall2_diag, Forall_forall. intros msg _.
    apply historyContent_parts.
  - eexists. split; [apply Hlast|].
    cbn [parts]. by destruct (truthy currentImage).
  - rewrite length_app, length_fmap. simpl. lia.
  - rewrite take_app_length'; [|by rewrite length_fmap].
    apply Forall2_fmap_r, Forall_Forall2_diag, Forall_forall. intros msg _.
    apply historyContent_image.
  - rewrite Hlast. cbn [fmap option_fmap option_map parts].
    by destruct currentImage as [[|c img]|].
  - rewrite Hlast. cbn [fmap option_fmap option_map parts].
    repeat (apply Forall_cons; split;
            [intros bytes ->; vm_compute; reflexivity|]).
    apply Forall_nil_2.
Qed.

(** A PNG photo after one earlier turn that carried a JPEG. *)
Example chatRequest_example :
  let earlier :=
    {| msg_id := js "m1"; role := USER; text := js "look";
       imageUrl := Some (js "data:image/jpeg;base64,/9j/4A");
       type := TEXT; timestamp := 1700000000000; isGenerating := None;
       originalPrompt := None |} in
  parts <$> contents (chatRequest [earlier] (js "and this?")
                        (Some (js "data:image/png;base64,iVBOR")))
    = [[InlineData (js "image/jpeg") (js "/9j/4A"); Text (js "look")];
       [InlineData (js "image/png") (js "iVBOR"); Text (js "and this?")]].
Proof. vm_compute. reflexivity. Qed.

(** X7.  An image the image operation returns is a non-empty JPEG data URI from
    which the two helpers recover the type and the bytes. *)
Theorem generateImageWithGemini_uri (ai : Remote) (text uri : jstring) :
  generateImageWithGemini ai text = Returned (Some uri) →
  truthyS uri = true ∧ getMimeType uri = (js "image/jpeg") ∧
  ∃ bytes, uri = (js "data:image/jpeg;base64,") ++ bytes ∧ cleanBase64 uri = bytes.
Proof.
  unfold generateImageWithGemini.
  destruct (generateImages ai _) as [response|e]; [|done].
  destruct (generatedImages response) as [[|bytes others]|]; [done| |done].
  intros [= <-]. split; [done|]. split; [done|]. by exists bytes.
Qed.

Lemma generateImageWithGemini_uri_witness :
  truthyS (js "data:image/jpeg;base64,QUJD") = true ∧
  getMimeType (js "data:image/jpeg;base64,QUJD") = (js "image/jpeg") ∧
  ∃ bytes, (js "data:image/jpeg;base64,QUJD") = (js "data:image/jpeg;base64,") ++ bytes ∧
           cleanBase64 (js "data:image/jpeg;base64,QUJD") = bytes.
Proof. exact (generateImageWithGemini_uri paintingRemote (js "a cat") _ eq_refl). Defined.

End OperationFacts.

(** ** Sorting: stability and sorted inputs *)

Section StableSortFacts.
Import JS.
Context {A : Type} (cmp : A → A → Z).

Lemma insertBy_head (x : A) (l : list A) :
  HdRel (λ a b, cmp a b ≤ 0) x l → insertBy cmp x l = x :: l.
Proof.
  destruct 1 as [|y l Hxy]; simpl; [done|].
  apply Z.leb_le in Hxy. by rewrite Hxy.
Qed.

(** A list in order is returned as it is. *)
Lemma sort_Sorted_id (l : list A) : Sorted (λ a b, cmp a b ≤ 0) l → sort cmp l = l.
Proof.
  induction 1 as [|x l Hl IH Hx]; simpl; [done|].
  fold (sort cmp l). rewrite IH. by apply insertBy_head.
Qed.

(** Elements that the comparator ranks equal keep their order. *)
Lemma insertBy_filter_ties (P : A → Prop) `{!∀ a, Decision (P a)} (x : A) (l : list A) :
  (∀ a b, P a → P b → cmp a b ≤ 0) →
  filter P (insertBy cmp x l) = filter P (x :: l).
Proof.
  intros Hties. induction l as [|y l IH]; simpl; [done|].
  destruct (cmp x y <=? 0) eqn:E; [done|]. apply Z.leb_gt in E.
  rewrite (filter_cons P y), IH, !(filter_cons P x), (filter_cons P y).
  destruct (decide (P x)) as [Hx|Hx], (decide (P y)) as [Hy|Hy]; try done.
  specialize (Hties x y Hx Hy). lia.
Qed.

Lemma sort_filter_ties (P : A → Prop) `{!∀ a, Decision (P a)} (l : list A) :
  (∀ a b, P a → P b → cmp a b ≤ 0) →
  filter P (sort cmp l) = filter P l.
Proof.
  intros Hties. induction l as [|x l IH]; simpl; [done|].
  fold (sort cmp l). rewrite (insertBy_filter_ties P _ _ Hties).
  by rewrite !(filter_cons P x), IH.
Qed.

End StableSortFacts.

Lemma filter_Forall_id {A : Type} (P : A → Prop) `{!∀ a, Decision (P a)} (l : list A) :
  Forall P l → filter P l = l.
Proof.
  induction 1 as [|x l Hx Hl IH]; [done|]. by rewrite filter_cons_True, IH.
Qed.

(** ** components/Sidebar.tsx: further properties *)

Section SidebarMore.
Import JS Types Sidebar Spec Props Fixtures.

Lemma includes_empty (s : jstring) : includes s [] = true.
Proof. by destruct s. Qed.

(** X8.  With an empty search term the sidebar shows every session, once
    (on every engine: lower-casing the empty string gives the empty
    string). *)
Theorem filteredSessions_empty_term (E : Engine) (sessions : list ChatSession) :
  lowersAscii E →
  filteredSessions E sessions [] ≡ₚ sessions ∧
  length (filteredSessions E sessions []) = length sessions.
Proof.
  intros HE.
  assert (H : filteredSessions E sessions [] ≡ₚ sessions).
  { unfold filteredSessions. rewrite sort_Permutation.
    rewrite filter_Forall_id; [done|].
    apply Forall_forall. intros s _. unfold matchesSearch.
    rewrite (HE [] (Forall_nil_2 _)). apply includes_empty. }
  split; [done|]. by rewrite H.
Qed.

Lemma filteredSessions_empty_term_witness :
  filteredSessions asciiEngine [trip; taxes; recipe] [] ≡ₚ [trip; taxes; recipe] ∧
  length (filteredSessions asciiEngine [trip; taxes; recipe] []) = 3%nat.
Proof.
  exact (filteredSessions_empty_term asciiEngine [trip; taxes; recipe] (λ s _, eq_refl)).
Defined.

(** X9.  The displayed list is a fixed point: filtering and sorting it again
    with the same term changes nothing. *)
Theorem filteredSessions_idempotent (E : Engine) (sessions : list ChatSession)
    (searchTerm : jstring) :
  filteredSessions E (filteredSessions E sessions searchTerm) searchTerm
    = filteredSessions E sessions searchTerm.
Proof.
  unfold filteredSessions at 1.
  rewrite filter_Forall_id.
  - apply sort_Sorted_id. apply (sort_Sorted compareSessions).
  - apply Forall_forall. intros s Hs. unfold filteredSessions in Hs.
    rewrite sort_Permutation in Hs. by apply list_elem_of_filter in Hs as [? _].
Qed.

(** X10.  Sessions of the same pinned state and the same update time are shown
    in the order they have in the collection. *)
Theorem filteredSessions_stable (E : Engine) (sessions : list ChatSession)
    (searchTerm : jstring)
    (a : ChatSession) :
  filter (sameRank a) (filteredSessions E sessions searchTerm)
    = filter (sameRank a) (filter (matchesSearch E searchTerm) sessions).
Proof.
  apply sort_filter_ties. intros b c [Hb1 Hb2] [Hc1 Hc2].
  unfold compareSessions. rewrite <- Hb1, <- Hc1, <- Hb2, <- Hc2.
  destruct (truthyB (isPinned a)); simpl; lia.
Qed.

Example filteredSessions_stable_example :
  let twin := {| id := (js "s9"); title := (js "Trip notes"); messages := [];
                 createdAt := 40; updatedAt := 50; isPinned := Some false |} in
  id <$> filteredSessions asciiEngine [trip; twin; taxes] (js "trip") = [(js "s2"); (js "s1"); (js "s9")] ∧
  id <$> filteredSessions asciiEngine [twin; trip; taxes] (js "trip") = [(js "s2"); (js "s9"); (js "s1")].
Proof. split; vm_compute; reflexivity. Qed.

End SidebarMore.

(** ** App.tsx: what a send delivers *)

Section DeliveryFacts.
Import JS Types Gemini Request App Spec Props Fixtures.

Lemma appendUserMsg_gained h target textToSend userMsg s w :
  gained target (titleAfterSend textToSend) userMsg s
         (appendUserMsg h target textToSend userMsg s w).1.
Proof.
  unfold gained, appendUserMsg. by destruct (decide (Some (id s) = target)).
Qed.

Lemma appendBotMsg_gained h target botMsg s w :
  gained target title botMsg s (appendBotMsg h target botMsg s w).1.
Proof.
  unfold gained, appendBotMsg. by destruct (decide (Some (id s) = target)).
Qed.

Lemma appendErrorMsg_gained target errorMsg s :
  gained target title errorMsg s (appendErrorMsg target errorMsg s).
Proof.
  unfold gained, appendErrorMsg. by destruct (decide (Some (id s) = target)).
Qed.

Lemma gained_twice target textToSend m1 m2 s1 s2 s3 :
  gained target (titleAfterSend textToSend) m1 s1 s2 →
  gained target title m2 s2 s3 →
  sentInto target textToSend m1 m2 s1 s3.
Proof.
  unfold gained, sentInto. intros H1 H2.
  destruct (decide (Some (id s1) = target)) as [E|E].
  - destruct H1 as (Hid & Ht & Hm & Hc & Hp).
    rewrite Hid in H2. destruct (decide (Some (id s1) = target)); [|done].
    destruct H2 as (Hid' & Ht' & Hm' & Hc' & Hp').
    rewrite Hid', Ht', Hm', Hc', Hp', Ht, Hm, Hc, Hp, <- app_assoc. done.
  - subst s2. destruct (decide (Some (id s1) = target)); done.
Qed.

(** The whole effect of a send that reaches the gateway. *)
Lemma handleSend_full (h : Host) (r : AppState) (w : World) overrideText isImageGenMode :
  truthy (currentSessionId r) = true →
  truthyS (trim (textOf r overrideText)) || truthy (selectedImage r) = true →
  let w' := (handleSend h r overrideText isImageGenMode w).2 in
  let target := currentSessionId r in
  let textToSend := textOf r overrideText in
  let userMsg := userMessage h r w overrideText in
  ∃ replyMsg,
    role replyMsg = MODEL ∧
    match gatewayReply h r target textToSend userMsg isImageGenMode with
    | Returned (responseText, responseImage, msgType, prompt) =>
        text replyMsg = responseText ∧ imageUrl replyMsg = responseImage ∧
        type replyMsg = msgType ∧ originalPrompt replyMsg = prompt
    | Thrown _ =>
        text replyMsg = disruptedReply ∧ imageUrl replyMsg = None ∧
        type replyMsg = TEXT ∧ originalPrompt replyMsg = None
    end ∧
    Forall2 (sentInto target textToSend userMsg replyMsg)
            (sessions (ui w)) (sessions (ui w')) ∧
    input (ui w') = [] ∧ selectedImage (ui w') = None ∧
    isTyping (ui w') = false ∧ showImageGenGuide (ui w') = false ∧
    currentSessionId (ui w') = currentSessionId (ui w) ∧
    previewData (ui w') = previewData (ui w).
Proof.
  intros Hcur Hsome w' target textToSend userMsg. subst w'.
  remember (handleSend h r overrideText isImageGenMode w) as res eqn:E.
  unfold handleSend in E. fold (textOf r overrideText) in E.
  fold textToSend in E, Hsome. apply orb_true_iff in Hsome.
  assert (Hguard : negb (truthyS (trim textToSend)) && negb (truthy (selectedImage r))
                   || negb (truthy (currentSessionId r)) = false).
  { rewrite Hcur. destruct Hsome as [-> | ->]; simpl; [done|].
    by rewrite andb_false_r. }
  rewrite Hguard, Hcur in E. simpl in E. fold target in E.
  unfold mbind, M_bind, mret, M_ret, setSessions in E. simpl in E.
  change {| msg_id := _; role := USER; text := textToSend;
            imageUrl := orUndefined (selectedImage r); type := TEXT;
            timestamp := dateNow h (clockCalls w); isGenerating := None;
            originalPrompt := None |} with userMsg in E.
  clearbody userMsg.
  run_mapM E (appendUserMsg h target textToSend userMsg) Hui1 Hmid
           (appendUserMsg_ui h target textToSend userMsg)
           (appendUserMsg_gained h target textToSend userMsg) mid w1.
  destruct (gatewayReply h r target textToSend userMsg isImageGenMode)
    as [[[[responseText responseImage] msgType] prompt]|e]; simpl in E.
  - set (botMsg := {| msg_id := _ |}) in E.
    run_mapM E (appendBotMsg h target botMsg) Hui2 Hfin
             (appendBotMsg_ui h target botMsg)
             (appendBotMsg_gained h target botMsg) fin w2.
    subst res. simpl. rewrite Hui2. simpl. rewrite Hui1.
    exists botMsg. repeat split.
    eapply Forall2_compose; [|exact Hmid|exact Hfin].
    intros s1 s2 s3. apply gained_twice.
  - set (errorMsg := {| msg_id := _ |}) in E.
    subst res. simpl. rewrite Hui1.
    exists errorMsg. repeat split.
    eapply Forall2_compose; [|exact Hmid|].
    + intros s1 s2 s3. apply gained_twice.
    + apply Forall2_fmap_r, Forall_Forall2_diag, Forall_forall. intros s _.
      apply appendErrorMsg_gained.
Qed.

End DeliveryFacts.

Section ReplyFacts.
Import JS Types Gemini Request App Composer Spec Props Fixtures.

Lemma sendMessageToGemini_truthy ai history currentMessage currentImage :
  truthyS (sendMessageToGemini ai history currentMessage currentImage) = true.
Proof.
  unfold sendMessageToGemini. destruct (generateContent ai _); [|done].
  by apply orElse_truthy.
Qed.

(** The reply of the gateway is an image with its prompt, or a text. *)
Lemma gatewayReply_Returned h r target textToSend userMsg isImageGenMode
    responseText responseImage msgType prompt :
  gatewayReply h r target textToSend userMsg isImageGenMode
    = Returned (responseText, responseImage, msgType, prompt) →
  truthyS responseText = true ∧
  ((msgType = IMAGE ∧ truthy responseImage = true ∧ prompt = Some textToSend ∧
    responseText = imageReply textToSend) ∨
   (msgType = TEXT ∧ responseImage = None ∧ prompt = None)).
Proof.
  unfold gatewayReply.
  destruct (isImageGenMode || isImageGenerationRequest (engine h) textToSend).
  - destruct (generateImageWithGemini (ai h) textToSend) as [img|e]; [|done].
    destruct (truthy img) eqn:Himg; intros [= <- <- <- <-].
    + split; [done|]. by left.
    + split; [done|]. by right.
  - intros [= <- <- <- <-]. split; [apply sendMessageToGemini_truthy|]. by right.
Qed.

(** X11.  A send with a current session and something to send: every session
    with the target identifier gains the user's message and then exactly
    one model message with a non-empty text; a session that had no message
    is titled with the first thirty UTF-16 code units of the text, or "Image
    Analysis" when there is no text; identifier, creation time and pinned
    flag stay; every other session is untouched; the composer is cleared
    and the typing flag is off. *)
Theorem handleSend_delivers (h : Host) (w : World) overrideText isImageGenMode :
  truthy (currentSessionId (ui w)) = true →
  truthyS (trim (textOf (ui w) overrideText)) || truthy (selectedImage (ui w)) = true →
  let w' := (handleSend h (ui w) overrideText isImageGenMode w).2 in
  ∃ userMsg replyMsg,
    role userMsg = USER ∧ text userMsg = textOf (ui w) overrideText ∧
    imageUrl userMsg = orUndefined (selectedImage (ui w)) ∧
    role replyMsg = MODEL ∧ truthyS (text replyMsg) = true ∧
    Forall2 (sentInto (currentSessionId (ui w)) (textOf (ui w) overrideText)
                      userMsg replyMsg)
            (sessions (ui w)) (sessions (ui w')) ∧
    input (ui w') = [] ∧ selectedImage (ui w') = None ∧ isTyping (ui w') = false.
Proof.
  intros Hcur Hsome w'.
  destruct (handleSend_full h (ui w) w overrideText isImageGenMode Hcur Hsome)
    as (replyMsg & Hrole & Hreply & Hsent & Hin & Hsel & Hty & _).
  exists (userMessage h (ui w) w overrideText), replyMsg.
  split; [done|]. split; [done|]. split; [done|]. split; [done|].
  split; [|by repeat split].
  destruct (gatewayReply _ _ _ _ _ _) as [[[[rt ri] mt] op]|e] eqn:Hg.
  - destruct Hreply as (-> & _). by apply gatewayReply_Returned in Hg as [? _].
  - by destruct Hreply as (-> & _).
Qed.

Lemma handleSend_delivers_witness :
  let w' := (handleSend paintingHost (ui chatting) (Some (js "hi there")) false chatting).2 in
  ∃ userMsg replyMsg,
    role userMsg = USER ∧ text userMsg = (js "hi there") ∧
    imageUrl userMsg = None ∧
    role replyMsg = MODEL ∧ truthyS (text replyMsg) = true ∧
    Forall2 (sentInto (Some (js "s1")) (js "hi there") userMsg replyMsg)
            [trip; taxes] (sessions (ui w')) ∧
    input (ui w') = [] ∧ selectedImage (ui w') = None ∧ isTyping (ui w') = false.
Proof.
  exact (handleSend_delivers paintingHost chatting (Some (js "hi there")) false eq_refl eq_refl).
Defined.

Example handleSend_titles :
  let w1 := (handleSend paintingHost (ui chatting)
               (Some (js "What is the capital of Rajasthan, please?")) false chatting).2 in
  let w2 := (handleSend paintingHost (ui w1) (Some (js "and of Goa?")) false w1).2 in
  title <$> sessions (ui w1) = [(js "What is the capital of Rajasth"); (js "TRIPLE check taxes")] ∧
  title <$> sessions (ui w2) = [(js "What is the capital of Rajasth"); (js "TRIPLE check taxes")].
Proof. split; reflexivity. Qed.

(** The thirty are UTF-16 code units.  A first message in Devanagari of 47
    code units (119 bytes in UTF-8) gives a title of its first 30 code
    units; after 29 letters an emoji outside the basic plane is cut between
    its two surrogates, as [substring(0, 30)] does. *)
Example handleSend_titles_code_units :
  let hindi : jstring :=
    [2344; 2350; 2360; 2381; 2340; 2375; 44; 32; 2310; 2332; 32; 2350; 2380;
     2360; 2350; 32; 2325; 2376; 2360; 2366; 32; 2352; 2361; 2375; 2327; 2366;
     32; 2324; 2352; 32; 2325; 2354; 32; 2325; 2366; 32; 2325; 2381; 2351;
     2366; 32; 2361; 2366; 2354; 32; 2361; 2376]%N in
  let grin : jstring := js "aaaaaaaaaaaaaaaaaaaaaaaaaaaaa" ++ [55357; 56832; 33]%N in
  let w1 := (handleSend paintingHost (ui chatting) (Some hindi) false chatting).2 in
  let w2 := (handleSend paintingHost (ui chatting) (Some grin) false chatting).2 in
  title <$> sessions (ui w1) = [take 30 hindi; js "TRIPLE check taxes"] ∧
  length (take 30 hindi) = 30%nat ∧
  title <$> sessions (ui w2)
    = [js "aaaaaaaaaaaaaaaaaaaaaaaaaaaaa" ++ [55357%N]; js "TRIPLE check taxes"].
Proof. repeat split; vm_compute; reflexivity. Qed.

(** X12.  The model message of a send is an image message exactly when it
    carries an image, and exactly then it carries the text of the send as
    its prompt; the bubble marks it as generated in that case only, never
    the user's message, and the preview opened from it offers to
    regenerate when that text is not empty. *)
Theorem handleSend_reply_kind (h : Host) (w : World) overrideText isImageGenMode :
  truthy (currentSessionId (ui w)) = true →
  truthyS (trim (textOf (ui w) overrideText)) || truthy (selectedImage (ui w)) = true →
  let w' := (handleSend h (ui w) overrideText isImageGenMode w).2 in
  let textToSend := textOf (ui w) overrideText in
  ∃ userMsg replyMsg,
    Forall2 (sentInto (currentSessionId (ui w)) textToSend userMsg replyMsg)
            (sessions (ui w)) (sessions (ui w')) ∧
    (type replyMsg = IMAGE ↔ truthy (imageUrl replyMsg) = true) ∧
    (type replyMsg = IMAGE ↔ originalPrompt replyMsg = Some textToSend) ∧
    MessageBubble.isGenerated replyMsg = truthy (imageUrl replyMsg) ∧
    MessageBubble.isGenerated userMsg = false ∧
    (∀ pd, MessageBubble.imageClick replyMsg = Some pd →
           url pd = default [] (imageUrl replyMsg) ∧
           pv_prompt pd = Some textToSend ∧
           regenerateVisible pd = truthyS textToSend).
Proof.
  intros Hcur Hsome w' textToSend.
  destruct (handleSend_full h (ui w) w overrideText isImageGenMode Hcur Hsome)
    as (replyMsg & Hrole & Hreply & Hsent & _).
  exists (userMessage h (ui w) w overrideText), replyMsg. split; [exact Hsent|].
  assert (Hkind : (type replyMsg = IMAGE ∧ truthy (imageUrl replyMsg) = true ∧
                   originalPrompt replyMsg = Some textToSend) ∨
                  (type replyMsg = TEXT ∧ imageUrl replyMsg = None ∧
                   originalPrompt replyMsg = None)).
  { destruct (gatewayReply _ _ _ _ _ _) as [[[[rt ri] mt] op]|e] eqn:Hg.
    - destruct Hreply as (_ & -> & -> & ->).
      apply gatewayReply_Returned in Hg as [_ [(-> & ? & -> & _)|(-> & -> & ->)]]; auto.
    - destruct Hreply as (_ & -> & -> & ->). by right. }
  unfold MessageBubble.imageClick, MessageBubble.isGenerated, MessageBubble.isUser,
    regenerateVisible.
  rewrite Hrole. simpl.
  destruct Hkind as [(Ht & Hi & Hp)|(Ht & Hi & Hp)]; rewrite Ht, Hi, Hp; simpl.
  - repeat split; try done;
      by match goal with H : Some _ = Some _ |- _ => injection H as <- end.
  - repeat split; done.
Qed.

Lemma handleSend_reply_kind_witness :
  let w' := (handleSend paintingHost (ui chatting) None false chatting).2 in
  ∃ userMsg replyMsg,
    Forall2 (sentInto (Some (js "s1")) (js "draw a cat") userMsg replyMsg)
            [trip; taxes] (sessions (ui w')) ∧
    (type replyMsg = IMAGE ↔ truthy (imageUrl replyMsg) = true) ∧
    (type replyMsg = IMAGE ↔ originalPrompt replyMsg = Some (js "draw a cat")) ∧
    MessageBubble.isGenerated replyMsg = truthy (imageUrl replyMsg) ∧
    MessageBubble.isGenerated userMsg = false ∧
    (∀ pd, MessageBubble.imageClick replyMsg = Some pd →
           url pd = default [] (imageUrl replyMsg) ∧
           pv_prompt pd = Some (js "draw a cat") ∧
           regenerateVisible pd = truthyS (js "draw a cat")).
Proof.
  exact (handleSend_reply_kind paintingHost chatting None false eq_refl eq_refl).
Defined.

End ReplyFacts.

(** ** App.tsx: one endpoint per send *)

Section EndpointFacts.
Import JS Types Gemini Request App Composer Spec Props Fixtures.

Lemma gatewayReply_withChat h f r target textToSend userMsg isImageGenMode :
  isImageGenMode || isImageGenerationRequest (engine h) textToSend = true →
  gatewayReply (withChat h f) r target textToSend userMsg isImageGenMode
    = gatewayReply h r target textToSend userMsg isImageGenMode.
Proof.
  intros H. unfold gatewayReply, withChat, withImages. cbn [engine ai].
  by rewrite H.
Qed.

Lemma gatewayReply_withImages h f r target textToSend userMsg isImageGenMode :
  isImageGenMode || isImageGenerationRequest (engine h) textToSend = false →
  gatewayReply (withImages h f) r target textToSend userMsg isImageGenMode
    = gatewayReply h r target textToSend userMsg isImageGenMode.
Proof.
  intros H. unfold gatewayReply, withChat, withImages. cbn [engine ai].
  by rewrite H.
Qed.

(** X13.  A send asks one endpoint only.  In image mode, or when the heuristic
    takes the text for an image request, the outcome does not depend on the
    chat endpoint; otherwise it does not depend on the image endpoint. *)
Theorem handleSend_one_endpoint (h : Host) (r : AppState) (w : World)
    overrideText isImageGenMode :
  let imagePath := isImageGenMode || isImageGenerationRequest (engine h) (textOf r overrideText) in
  (imagePath = true →
   ∀ chat, handleSend (withChat h chat) r overrideText isImageGenMode w
           = handleSend h r overrideText isImageGenMode w) ∧
  (imagePath = false →
   ∀ images, handleSend (withImages h images) r overrideText isImageGenMode w
             = handleSend h r overrideText isImageGenMode w).
Proof.
  intros imagePath. subst imagePath. unfold textOf. split; intros Hpath other.
  - unfold handleSend.
    destruct (truthy (currentSessionId r)); [|rewrite !orb_true_r; reflexivity].
    destruct (negb _ && negb _); [reflexivity|].
    unfold mbind, M_bind. cbn -[gatewayReply mapM].
    rewrite (gatewayReply_withChat h other _ _ _ _ _ Hpath). reflexivity.
  - unfold handleSend.
    destruct (truthy (currentSessionId r)); [|rewrite !orb_true_r; reflexivity].
    destruct (negb _ && negb _); [reflexivity|].
    unfold mbind, M_bind. cbn -[gatewayReply mapM].
    rewrite (gatewayReply_withImages h other _ _ _ _ _ Hpath). reflexivity.
Qed.

Example handleSend_one_endpoint_example :
  handleSend (withChat paintingHost (λ _, Thrown "offline")) (ui chatting) None false chatting
    = handleSend paintingHost (ui chatting) None false chatting ∧
  handleSend (withImages freshHost (λ _, Returned {| generatedImages := None |}))
             (ui chatting) (Some (js "namaste")) false chatting
    = handleSend freshHost (ui chatting) (Some (js "namaste")) false chatting.
Proof. split; vm_compute; reflexivity. Qed.

End EndpointFacts.

Lemma generateImageWithGemini_Some_truthy (ai : Gemini.Remote) (text uri : list N) :
  Gemini.generateImageWithGemini ai text = JS.Returned (Some uri) → JS.truthyS uri = true.
Proof.
  unfold Gemini.generateImageWithGemini.
  destruct (Gemini.generateImages ai _) as [response|e]; [|done].
  destruct (Gemini.generatedImages response) as [[|bytes others]|]; [done| |done].
  by intros [= <-].
Qed.

(** ** App.tsx: regenerating an image *)

Section RegenerateFacts.
Import JS Types Gemini Request App Composer Spec Props Fixtures.

Lemma trim_truthy (s : jstring) : truthyS (trim s) = true → truthyS s = true.
Proof. by destruct s. Qed.

(** X14.  Regenerating from the preview closes the preview and sends the stored
    prompt again in image mode: with a current session, the prompt is
    appended as a user message and the reply is what the image operation
    gives for that prompt, an image carrying the prompt, the fixed text for
    no image, or the fixed error text when it throws. *)
Theorem handleRegenerateImage_resends (h : Host) (w : World) (pd : PreviewData)
    (stored : jstring) :
  previewData (ui w) = Some pd → pv_prompt pd = Some stored →
  truthyS (trim stored) = true →
  truthy (currentSessionId (ui w)) = true →
  let w' := (handleRegenerateImage h (ui w) w).2 in
  previewData (ui w') = None ∧
  ∃ userMsg replyMsg,
    role userMsg = USER ∧ text userMsg = stored ∧ role replyMsg = MODEL ∧
    Forall2 (sentInto (currentSessionId (ui w)) stored userMsg replyMsg)
            (sessions (ui w)) (sessions (ui w')) ∧
    match generateImageWithGemini (ai h) stored with
    | Returned (Some uri) =>
        type replyMsg = IMAGE ∧ imageUrl replyMsg = Some uri ∧
        originalPrompt replyMsg = Some stored
    | Returned None => type replyMsg = TEXT ∧ text replyMsg = blurryReply
    | Thrown _ => type replyMsg = TEXT ∧ text replyMsg = disruptedReply
    end.
Proof.
  intros Hpd Hprompt Htrim Hcur w'. subst w'.
  pose proof (trim_truthy stored Htrim) as Hne.
  assert (Htext : textOf (ui w) (Some stored) = stored)
    by (unfold textOf; simpl; by rewrite Hne).
  unfold handleRegenerateImage. rewrite Hpd, Hprompt. simpl. rewrite Hne.
  unfold mbind, M_bind. cbn [setPreviewData modify].
  match goal with
  | |- context [handleSend h (ui w) (Some stored) true ?w0] =>
      destruct (handleSend_full h (ui w) w0 (Some stored) true Hcur) as
        (replyMsg & Hrole & Hreply & Hsent & _ & _ & _ & _ & _ & Hpv);
        [by rewrite Htext, Htrim|]; set (userMsg := userMessage h (ui w) w0 (Some stored)) in *
  end.
  rewrite Htext in Hreply, Hsent. split; [exact Hpv|].
  exists userMsg, replyMsg. split; [done|]. split; [exact Htext|]. split; [done|].
  split; [exact Hsent|].
  unfold gatewayReply in Hreply. simpl in Hreply.
  destruct (generateImageWithGemini (ai h) stored) as [[uri|]|e] eqn:Hgen;
    simpl in Hreply.
  - rewrite (generateImageWithGemini_Some_truthy _ _ _ Hgen) in Hreply.
    by destruct_and!.
  - by destruct_and!.
  - by destruct_and!.
Qed.

End RegenerateFacts.

Lemma handleRegenerateImage_resends_witness :
  let w' := (App.handleRegenerateImage Fixtures.paintingHost
               (App.ui Scenes.previewing) Scenes.previewing).2 in
  App.previewData (App.ui w') = None ∧
  ∃ userMsg replyMsg,
    Types.role userMsg = Types.USER ∧ Types.text userMsg = (JS.js "a red fort at dawn") ∧
    Types.role replyMsg = Types.MODEL ∧
    Forall2 (Props.sentInto (Some (JS.js "s1")) (JS.js "a red fort at dawn") userMsg replyMsg)
            [Fixtures.trip; Fixtures.taxes] (App.sessions (App.ui w')) ∧
    Types.type replyMsg = Types.IMAGE ∧
    Types.imageUrl replyMsg = Some (JS.js "data:image/jpeg;base64,QUJD") ∧
    Types.originalPrompt replyMsg = Some (JS.js "a red fort at dawn").
Proof.
  exact (handleRegenerateImage_resends Fixtures.paintingHost Scenes.previewing _
           (JS.js "a red fort at dawn") eq_refl eq_refl eq_refl eq_refl).
Defined.

(** ** App.tsx: identifiers and the current pointer *)

Section IdentifierFacts.
Import JS Types Gemini Request App Composer Spec Props Fixtures Scenes.

Lemma Forall2_sentInto_ids target textToSend m1 m2 (l l' : list ChatSession) :
  Forall2 (sentInto target textToSend m1 m2) l l' → id <$> l' = id <$> l.
Proof.
  induction 1 as [|s s' l l' H _ IH]; [done|]. simpl. f_equal; [|done].
  unfold sentInto in H. destruct (decide (Some (id s) = target)); [by destruct H|by subst].
Qed.

(** The identifiers and the pointer a send leaves, for any render. *)
Lemma handleSend_ids (h : Host) (r : AppState) (w : World) overrideText isImageGenMode :
  let w' := (handleSend h r overrideText isImageGenMode w).2 in
  id <$> sessions (ui w') =
    (if truthy (currentSessionId r) then [] else [(generateId h w).1])
    ++ (id <$> sessions (ui w)) ∧
  currentSessionId (ui w') =
    if truthy (currentSessionId r) then currentSessionId (ui w)
    else Some (generateId h w).1.
Proof.
  intros w'. subst w'. destruct (truthy (currentSessionId r)) eqn:Hcur.
  - destruct (truthyS (trim (textOf r overrideText)) || truthy (selectedImage r)) eqn:Hsome.
    + destruct (handleSend_full h r w overrideText isImageGenMode Hcur Hsome)
        as (replyMsg & _ & _ & Hsent & _ & _ & _ & _ & Hptr & _).
      split; [|done]. by apply Forall2_sentInto_ids in Hsent.
    + by rewrite (handleSend_idle h r w overrideText isImageGenMode Hcur Hsome).
  - destruct (handleSend_no_session h r w overrideText isImageGenMode Hcur)
      as (-> & -> & _). done.
Qed.

Lemma pin_ids (id0 : jstring) (l : list ChatSession) :
  id <$> ((λ s, if decide (id s = id0) then togglePin s else s) <$> l) = id <$> l.
Proof.
  rewrite <- list_fmap_compose. apply Forall_fmap_ext_1, Forall_forall.
  intros s _. simpl. by destruct (decide (id s = id0)).
Qed.

(** The identifiers in the collection after any event. *)
Lemma dispatch_ids (h : Host) (ev : Event) (w : World) :
  id <$> sessionsAfter h ev w =
    (if createsSession ev (ui w) then [(generateId h w).1] else [])
    ++ (id <$> survivors ev (sessions (ui w))).
Proof.
  unfold sessionsAfter, dispatch.
  destruct ev as [|id0|id0|id0| |overrideText g|]; cbv beta iota zeta.
  - by destruct (handleNewChat_run h w) as [-> _].
  - by destruct (handleDeleteSession_run (ui w) id0 w) as [-> _].
  - rewrite handlePinSession_run. simpl. apply pin_ids.
  - unfold handleSessionSelect, requireAuth. by destruct (isLoggedIn (ui w)).
  - done.
  - destruct (handleSend_ids h (ui w) w overrideText g) as [-> _]. simpl.
    by destruct (truthy (currentSessionId (ui w))).
  - unfold handleRegenerateImage. simpl.
    destruct (previewData (ui w)) as [pd|]; [|done].
    destruct (truthy (pv_prompt pd)); [|done].
    unfold mbind, M_bind. cbn [setPreviewData modify].
    match goal with
    | |- context [handleSend h (ui w) ?o ?g ?w0] =>
        destruct (handleSend_ids h (ui w) w0 o g) as [-> _]
    end.
    simpl. by destruct (truthy (currentSessionId (ui w))).
Qed.

(** The pointer after any event. *)
Lemma dispatch_pointer (h : Host) (ev : Event) (w : World) :
  currentSessionId (ui (dispatch h ev w).2) =
    if createsSession ev (ui w) then Some (generateId h w).1
    else match ev with
         | DeleteSession id0 =>
             if decide (currentSessionId (ui w) = Some id0) then None
             else currentSessionId (ui w)
         | SessionSelect id0 =>
             if isLoggedIn (ui w) then Some id0 else currentSessionId (ui w)
         | ClearAll => None
         | _ => currentSessionId (ui w)
         end.
Proof.
  unfold dispatch.
  destruct ev as [|id0|id0|id0| |overrideText g|]; cbv beta iota zeta.
  - by destruct (handleNewChat_run h w) as [_ ->].
  - by destruct (handleDeleteSession_run (ui w) id0 w) as [_ ->].
  - by rewrite handlePinSession_run.
  - unfold handleSessionSelect, requireAuth. by destruct (isLoggedIn (ui w)).
  - done.
  - destruct (handleSend_ids h (ui w) w overrideText g) as [_ ->]. simpl.
    by destruct (truthy (currentSessionId (ui w))).
  - unfold handleRegenerateImage. simpl.
    destruct (previewData (ui w)) as [pd|]; [|done].
    destruct (truthy (pv_prompt pd)); [|done].
    unfold mbind, M_bind. cbn [setPreviewData modify].
    match goal with
    | |- context [handleSend h (ui w) ?o ?g ?w0] =>
        destruct (handleSend_ids h (ui w) w0 o g) as [_ ->]
    end.
    simpl. by destruct (truthy (currentSessionId (ui w))).
Qed.

Lemma survivors_ids_sublist (ev : Event) (l : list ChatSession) :
  (id <$> survivors ev l) `sublist_of` (id <$> l).
Proof.
  destruct ev; simpl; try done.
  - apply fmap_sublist, sublist_filter.
  - apply sublist_nil_l.
Qed.

End IdentifierFacts.

Section InvariantFacts.
Import JS Types Gemini Request App Composer Spec Props Fixtures Scenes.

(** X15.  The pointer stays valid: if it is null or names a session before an
    event, it is so after it, provided a selection names a session of the
    collection (as the sidebar's rows do). *)
Theorem dispatch_pointer_valid (h : Host) (ev : Event) (w : World) :
  pointerValid (ui w) →
  (∀ id0, ev = SessionSelect id0 → id0 ∈ id <$> sessions (ui w)) →
  pointerValid (ui (dispatch h ev w).2).
Proof.
  intros Hvalid Hselect. unfold pointerValid in *.
  rewrite dispatch_pointer.
  change (sessions (ui (dispatch h ev w).2)) with (sessionsAfter h ev w).
  rewrite dispatch_ids.
  destruct (createsSession ev (ui w)); [simpl; rewrite elem_of_cons; by left|]. simpl.
  destruct ev as [|id0|id0|id0| |overrideText g|]; simpl; try done.
  - destruct (decide (currentSessionId (ui w) = Some id0)) as [|Hne]; [done|].
    destruct (currentSessionId (ui w)) as [c|]; [|done].
    apply list_elem_of_fmap in Hvalid as (s & -> & Hs).
    apply list_elem_of_fmap. exists s. split; [done|].
    apply list_elem_of_filter. split; [|done]. congruence.
  - destruct (isLoggedIn (ui w)); [by apply Hselect|done].
Qed.

Lemma dispatch_pointer_valid_witness :
  pointerValid (ui (dispatch freshHost (DeleteSession (js "s2")) chatting).2) ∧
  pointerValid (ui (dispatch freshHost (SessionSelect (js "s2")) chatting).2).
Proof.
  assert (Hvalid : pointerValid (ui chatting)).
  { unfold pointerValid. simpl. rewrite !elem_of_cons. by left. }
  split.
  - apply (dispatch_pointer_valid freshHost (DeleteSession (js "s2")) chatting Hvalid).
    intros id0 H. discriminate H.
  - apply (dispatch_pointer_valid freshHost (SessionSelect (js "s2")) chatting Hvalid).
    intros id0 [= <-]. simpl. rewrite !elem_of_cons. right. by left.
Defined.

(** X16.  Under a valid pointer the chat view has a session to show exactly when
    the pointer is not null, and that session is one of the collection with
    the pointer's identifier. *)
Theorem currentSession_valid (st : AppState) :
  pointerValid st →
  (currentSession st = None ↔ currentSessionId st = None) ∧
  (∀ s, currentSession st = Some s →
        s ∈ sessions st ∧ currentSessionId st = Some (id s)).
Proof.
  intros Hvalid. unfold currentSession, pointerValid in *.
  destruct (list_find _ (sessions st)) as [[i s]|] eqn:Hfind; simpl.
  - apply list_find_Some in Hfind as (Hi & Hid & _).
    split; [split; [done|]; intros E; by rewrite E in Hid|].
    intros ? [= <-]. split; [by eapply list_elem_of_lookup_2|done].
  - split; [|done]. split; [|done]. intros _.
    destruct (currentSessionId st) as [c|] eqn:Hc; [|done]. exfalso.
    apply list_elem_of_fmap in Hvalid as (s & -> & Hs).
    apply list_find_None in Hfind. rewrite Forall_forall in Hfind.
    by apply (Hfind s Hs).
Qed.

Lemma currentSession_valid_witness :
  (currentSession (ui chatting) = None ↔ currentSessionId (ui chatting) = None) ∧
  (∀ s, currentSession (ui chatting) = Some s →
        s ∈ sessions (ui chatting) ∧ currentSessionId (ui chatting) = Some (id s)).
Proof.
  apply (currentSession_valid (ui chatting)).
  unfold pointerValid. simpl. rewrite !elem_of_cons. by left.
Defined.

(** X17.  Identifiers stay unique: if no two sessions share an identifier before
    an event and the string [generateId] draws next is not in use, no two
    share one after it. *)
Theorem dispatch_unique_ids (h : Host) (ev : Event) (w : World) :
  NoDup (id <$> sessions (ui w)) →
  (generateId h w).1 ∉ id <$> sessions (ui w) →
  NoDup (id <$> sessionsAfter h ev w).
Proof.
  intros Hnd Hfresh. rewrite dispatch_ids.
  pose proof (survivors_ids_sublist ev (sessions (ui w))) as Hsub.
  assert (Hnd' : NoDup (id <$> survivors ev (sessions (ui w))))
    by by eapply sublist_NoDup.
  destruct (createsSession ev (ui w)); [|done]. simpl.
  constructor; [|done]. intros Hin. apply Hfresh. by eapply elem_of_sublist.
Qed.

Lemma dispatch_unique_ids_witness :
  NoDup (id <$> sessionsAfter freshHost NewChat chatting) ∧
  NoDup (id <$> sessionsAfter freshHost (Send None false) idle).
Proof.
  assert (Hnd : NoDup [(js "s1"); (js "s2")]).
  { repeat constructor; rewrite ?elem_of_cons, ?elem_of_nil; intros H;
      repeat destruct H as [H|H]; try discriminate H; done. }
  assert (Hfresh : (js "a-uuid") ∉ [(js "s1"); (js "s2")]).
  { rewrite !elem_of_cons, elem_of_nil. intros [H|[H|[]]]; discriminate H. }
  split.
  - exact (dispatch_unique_ids freshHost NewChat chatting Hnd Hfresh).
  - exact (dispatch_unique_ids freshHost (Send None false) idle Hnd Hfresh).
Defined.

End InvariantFacts.

(** ** App.tsx: sends without a current session *)

Section FirstSendFacts.
Import JS Types Gemini Request App Composer Spec Props Fixtures Scenes.

(** The cells of the composer are not touched when a send only creates a
    session. *)
Lemma handleSend_no_session_cells (h : Host) (r : AppState) (w : World)
    overrideText isImageGenMode :
  truthy (currentSessionId r) = false →
  let w' := (handleSend h r overrideText isImageGenMode w).2 in
  input (ui w') = input (ui w) ∧ selectedImage (ui w') = selectedImage (ui w) ∧
  showImageGenGuide (ui w') = showImageGenGuide (ui w).
Proof.
  intros Hnone. unfold handleSend. rewrite Hnone. simpl.
  rewrite orb_true_r. done.
Qed.

(** X18.  Pressing send twice delivers.  From a state with no current session
    and something to send, the first send creates the session and the same
    send repeated appends the user's message and the model's reply to it;
    this needs the identifier drawn for the session to be non-empty, since
    an empty identifier counts as no current session. *)
Theorem handleSend_second_press (h : Host) (w : World) overrideText isImageGenMode :
  truthy (currentSessionId (ui w)) = false →
  truthyS (trim (textOf (ui w) overrideText)) || truthy (selectedImage (ui w)) = true →
  truthyS (generateId h w).1 = true →
  let w1 := (handleSend h (ui w) overrideText isImageGenMode w).2 in
  let w2 := (handleSend h (ui w1) overrideText isImageGenMode w1).2 in
  ∃ s rest userMsg replyMsg,
    sessions (ui w2) = s :: rest ∧
    id s = (generateId h w).1 ∧ currentSessionId (ui w2) = Some (id s) ∧
    messages s = [userMsg; replyMsg] ∧
    role userMsg = USER ∧ text userMsg = textOf (ui w) overrideText ∧
    role replyMsg = MODEL ∧
    id <$> rest = id <$> sessions (ui w) ∧
    input (ui w2) = [].
Proof.
  intros Hnone Hsome Hid w1 w2.
  destruct (handleSend_no_session h (ui w) w overrideText isImageGenMode Hnone)
    as (Hs1 & Hc1 & Hin1 & _).
  destruct (handleSend_no_session_cells h (ui w) w overrideText isImageGenMode Hnone)
    as (_ & Hsel1 & _).
  fold w1 in Hs1, Hc1, Hin1, Hsel1. simpl in Hc1.
  assert (Htext : textOf (ui w1) overrideText = textOf (ui w) overrideText)
    by (unfold textOf; by rewrite Hin1).
  assert (Hcur1 : truthy (currentSessionId (ui w1)) = true) by by rewrite Hc1.
  assert (Hsome1 : truthyS (trim (textOf (ui w1) overrideText))
                   || truthy (selectedImage (ui w1)) = true)
    by by rewrite Htext, Hsel1.
  destruct (handleSend_full h (ui w1) w1 overrideText isImageGenMode Hcur1 Hsome1)
    as (replyMsg & Hrole & _ & Hsent & Hin2 & _ & _ & _ & Hc2 & _).
  fold w2 in Hsent, Hin2, Hc2.
  rewrite Hs1 in Hsent. apply Forall2_cons_inv_l in Hsent as (s & rest & Hs & Hrest & Hw2).
  exists s, rest, (userMessage h (ui w1) w1 overrideText), replyMsg.
  unfold sentInto in Hs. rewrite Hc1 in Hs. simpl in Hs.
  destruct (decide _) as [_|Hne] in Hs; [|done].
  destruct Hs as (Hids & _ & Hmsgs & _).
  split; [done|]. split; [done|]. split; [by rewrite Hc2, Hc1, Hids|].
  split; [done|]. split; [done|]. split; [exact Htext|]. split; [done|].
  split; [|done]. by apply Forall2_sentInto_ids in Hrest.
Qed.

Lemma handleSend_second_press_witness :
  let w1 := (handleSend freshHost (ui boot) None false boot).2 in
  let w2 := (handleSend freshHost (ui w1) None false w1).2 in
  ∃ s rest userMsg replyMsg,
    sessions (ui w2) = s :: rest ∧
    id s = (js "a-uuid") ∧ currentSessionId (ui w2) = Some (id s) ∧
    messages s = [userMsg; replyMsg] ∧
    role userMsg = USER ∧ text userMsg = (js "hello") ∧
    role replyMsg = MODEL ∧
    id <$> rest = [] ∧
    input (ui w2) = [].
Proof.
  exact (handleSend_second_press freshHost boot None false eq_refl eq_refl eq_refl).
Defined.

(** With an empty identifier drawn, the created session never becomes
    current: the same send creates a second session instead. *)
Example empty_identifier_loops :
  let emptyIds := {| ai := failingRemote; engine := asciiEngine;
                     cryptoRandomUUID := None;
                     mathRandomBase36 := λ _, (js "0");
                     dateNow := λ n, Z.of_nat n; innerWidth := 1280 |} in
  let w1 := (handleSend emptyIds (ui boot) None false boot).2 in
  let w2 := (handleSend emptyIds (ui w1) None false w1).2 in
  currentSessionId (ui w1) = Some [] ∧
  (λ s, (id s, title s, messages s)) <$> sessions (ui w2)
    = [([], (js "hello"), []); ([], (js "hello"), [])].
Proof. split; reflexivity. Qed.

(** X19.  The Enter key is not held back by what disables the send button.
    With nothing to send, Enter with a current session changes nothing,
    and so does any other key or Shift+Enter; but Enter without a current
    session creates an empty session, titled with the first thirty
    characters of the (blank) input or "New Chat", and makes it current. *)
Theorem handleKeyPress_blank (h : Host) (w : World) (key : jstring) (shiftKey : bool) :
  sendDisabled (ui w) = true →
  let w' := (handleKeyPress h (ui w) key shiftKey w).2 in
  (key ≠ (js "Enter") ∨ shiftKey = true ∨ truthy (currentSessionId (ui w)) = true → w' = w) ∧
  (key = (js "Enter") → shiftKey = false → truthy (currentSessionId (ui w)) = false →
   ∃ created,
     sessions (ui w') = created :: sessions (ui w) ∧
     messages created = [] ∧
     title created = orElse (substring 0 30 (input (ui w))) (js "New Chat") ∧
     currentSessionId (ui w') = Some (id created)).
Proof.
  intros Hdis w'. subst w'. unfold sendDisabled in Hdis.
  apply andb_true_iff in Hdis as [Ht Hi]. apply negb_true_iff in Ht, Hi.
  unfold handleKeyPress. split.
  - intros Hcase.
    destruct (bool_decide (key = js "Enter") && negb shiftKey) eqn:Hkey; [|done].
    apply andb_true_iff in Hkey as [Hk Hs]. apply bool_decide_eq_true in Hk.
    apply negb_true_iff in Hs.
    destruct Hcase as [Hc|[Hc|Hc]]; [done|congruence|].
    apply handleSend_idle; [done|]. unfold textOf. simpl. by rewrite Ht, Hi.
  - intros -> -> Hnone. rewrite bool_decide_eq_true_2 by done. cbn [negb andb].
    destruct (handleSend_no_session h (ui w) w None (showImageGenGuide (ui w)) Hnone)
      as (Hs & Hc & _).
    eexists. split; [exact Hs|]. by repeat split.
Qed.

Lemma handleKeyPress_blank_witness :
  let w' := (handleKeyPress freshHost (ui idle) (js "Enter") false idle).2 in
  ((((js "Enter") ≠ (js "Enter")) ∨ false = true ∨ truthy (currentSessionId (ui idle)) = true) →
   w' = idle) ∧
  ((js "Enter") = (js "Enter") → false = false → truthy (currentSessionId (ui idle)) = false →
   ∃ created,
     sessions (ui w') = created :: [trip; taxes] ∧
     messages created = [] ∧
     title created = (js "New Chat") ∧
     currentSessionId (ui w') = Some (id created)).
Proof. exact (handleKeyPress_blank freshHost idle (js "Enter") false eq_refl). Defined.

End FirstSendFacts.

(** ** App.tsx: how the store operations compose *)

Section StoreCompositionFacts.
Import JS Types Gemini Request App Composer Spec Props Fixtures Scenes.

Lemma handleDeleteSession_world (r : AppState) (id0 : jstring) (w : World) :
  (handleDeleteSession r id0 w).2 =
    {| ui := {| showStartup := showStartup (ui w); isSidebarOpen := isSidebarOpen (ui w);
                input := input (ui w); isTyping := isTyping (ui w);
                sessions := filter (λ s, id s ≠ id0) (sessions (ui w));
                currentSessionId :=
                  if decide (currentSessionId r = Some id0) then None
                  else currentSessionId (ui w);
                selectedImage := selectedImage (ui w);
                previewData := previewData (ui w);
                showImageGenGuide := showImageGenGuide (ui w);
                isLoggedIn := isLoggedIn (ui w);
                showLoginModal := showLoginModal (ui w) |};
       randCalls := randCalls w; clockCalls := clockCalls w |}.
Proof.
  unfold handleDeleteSession. by destruct (decide (currentSessionId r = Some id0)).
Qed.

Lemma filter_other_ids_twice (id0 : jstring) (l : list ChatSession) :
  filter (λ s, id s ≠ id0) (filter (λ s, id s ≠ id0) l) = filter (λ s, id s ≠ id0) l.
Proof.
  apply filter_Forall_id, Forall_forall. intros s Hs.
  by apply list_elem_of_filter in Hs as [? _].
Qed.

Lemma filter_other_ids_pin (id0 : jstring) (l : list ChatSession) :
  filter (λ s, id s ≠ id0) ((λ s, if decide (id s = id0) then togglePin s else s) <$> l)
    = filter (λ s, id s ≠ id0) l.
Proof.
  induction l as [|s l IH]; [done|]. rewrite fmap_cons.
  destruct (decide (id s = id0)) as [E|E].
  - rewrite !filter_cons_False; [done|intros H; by apply H..].
  - by rewrite !filter_cons_True, IH.
Qed.

(** X20.  Deleting is idempotent, and pinning a session before deleting it makes
    no difference; deleting an identifier that no session has changes
    nothing when the pointer is valid. *)
Theorem handleDeleteSession_composes (h : Host) (id0 : jstring) (w : World) :
  let deleted := (dispatch h (DeleteSession id0) w).2 in
  (dispatch h (DeleteSession id0) deleted).2 = deleted ∧
  (dispatch h (DeleteSession id0) (dispatch h (PinSession id0) w).2).2 = deleted ∧
  (id0 ∉ id <$> sessions (ui w) → pointerValid (ui w) → deleted = w).
Proof.
  intros deleted. subst deleted. unfold dispatch. cbv beta iota zeta.
  rewrite !handleDeleteSession_world, handlePinSession_run. simpl.
  rewrite filter_other_ids_twice, filter_other_ids_pin.
  split; [|split].
  - destruct (decide (currentSessionId (ui w) = Some id0)) as [E|E]; simpl.
    + by destruct (decide (None = Some id0)).
    + by destruct (decide (currentSessionId (ui w) = Some id0)).
  - done.
  - intros Habsent Hvalid.
    assert (Hptr : currentSessionId (ui w) ≠ Some id0).
    { intros E. unfold pointerValid in Hvalid. by rewrite E in Hvalid. }
    destruct (decide (currentSessionId (ui w) = Some id0)); [done|].
    rewrite filter_Forall_id.
    + by destruct w as [[] ? ?].
    + apply Forall_forall. intros s Hs E. apply Habsent.
      apply list_elem_of_fmap. by exists s.
Qed.

Example handleDeleteSession_dangling :
  let dangling := {| ui := {| showStartup := false; isSidebarOpen := false; input := [];
                              isTyping := false; sessions := [trip];
                              currentSessionId := Some (js "gone"); selectedImage := None;
                              previewData := None; showImageGenGuide := false;
                              isLoggedIn := true; showLoginModal := false |};
                     randCalls := 0; clockCalls := 0 |} in
  currentSessionId (ui (dispatch freshHost (DeleteSession (js "gone")) dangling).2) = None.
Proof. reflexivity. Qed.

(** X21.  Creating a chat and deleting it again restores the collection, but not
    the pointer: whatever session was current before is no longer current. *)
Theorem handleNewChat_then_delete (h : Host) (w : World) :
  (generateId h w).1 ∉ id <$> sessions (ui w) →
  let created := (dispatch h NewChat w).2 in
  let deleted := (dispatch h (DeleteSession (generateId h w).1) created).2 in
  currentSessionId (ui created) = Some (generateId h w).1 ∧
  sessions (ui deleted) = sessions (ui w) ∧
  currentSessionId (ui deleted) = None.
Proof.
  intros Hfresh created deleted. subst created deleted.
  unfold dispatch. cbv beta iota zeta.
  rewrite handleDeleteSession_world.
  destruct (handleNewChat_run h w) as [Hs Hc]. rewrite Hs, Hc.
  cbn [ui sessions currentSessionId id].
  split; [done|]. split; [|by destruct (decide _)].
  rewrite filter_cons_False by (intros H; by apply H).
  apply filter_Forall_id, Forall_forall. intros s Hs' E. apply Hfresh.
  apply list_elem_of_fmap. by exists s.
Qed.

Lemma handleNewChat_then_delete_witness :
  let created := (dispatch freshHost NewChat chatting).2 in
  let deleted := (dispatch freshHost (DeleteSession (js "a-uuid")) created).2 in
  currentSessionId (ui created) = Some (js "a-uuid") ∧
  sessions (ui deleted) = [trip; taxes] ∧
  currentSessionId (ui deleted) = None.
Proof.
  apply (handleNewChat_then_delete freshHost chatting).
  simpl. rewrite !elem_of_cons, elem_of_nil. intros [H|[H|[]]]; discriminate H.
Defined.

End StoreCompositionFacts.

(** ** App.tsx: where identifiers come from *)

Section ProvenanceFacts.
Import JS Types Gemini Request App Composer Spec Props Fixtures Scenes.












(** The identifiers of that run: four draws for two sessions and two
    messages, then the fifth for the new chat. *)
Example handleNewChat_run_example :
  let w := run freshHost [Send None false; Send None false; NewChat] boot in
  id <$> sessions (ui w) = [js "d-uuid"; js "a-uuid"] ∧
  id <$> sessions (ui (handleNewChat freshHost w).2)
    = [js "e-uuid"; js "d-uuid"; js "a-uuid"].
Proof. split; vm_compute; reflexivity. Qed.

(** The source of the browser of the collision repeats itself. *)
Example stuckHost_source_repeats :
  idSource stuckHost 0 = js "i" ∧ idSource stuckHost 1 = js "i".
Proof. split; reflexivity. Qed.

End ProvenanceFacts.
